(** * payments-diagram: the generation endpoint and the UI's error rewriting

    A shallow embedding of the three revisions of the [POST /api/flow]
    handler found in the repository

      - [payments-diagram/app/api/flow/route.ts]   (module [RouteTs])
      - [unnamed/part_001], headed "app/api/flow/route.ts (App Router)"
                                                   (module [Part001])
      - [unnamed/part_002], the OpenAI-SDK variant (module [Part002])

    and of [cleanApiError] from [app/page.tsx], together with the fragment
    of JavaScript they rely on: UTF-16 strings, JSON values, property reads,
    optional chaining, truthiness, [JSON.parse] and exceptions. *)

From Stdlib Require Import List NArith Bool Ascii String Lia.
From Stdlib Require Import DecimalString.
Import ListNotations.

Local Open Scope N_scope.
Local Open Scope list_scope.

(* ================================================================== *)
(** ** JavaScript strings *)

(** A JavaScript string is a sequence of UTF-16 code units; [length],
    [trim], [startsWith] and [includes] all work on code units. *)
Definition jsstring := list N.

(** An ASCII literal of the source, as code units. *)
Definition lit (s : string) : jsstring :=
  map N_of_ascii (list_ascii_of_string s).

(** JSON text is full of double quotes; [jtext] reads an ASCII literal in
    which every apostrophe stands for a double quote (code unit 34). *)
Definition jtext (s : string) : jsstring :=
  map (fun c => if c =? 39 then 34 else c) (lit s).

Definition jsstring_eqb (a b : jsstring) : bool :=
  if list_eq_dec N.eq_dec a b then true else false.

(** ECMAScript WhiteSpace and LineTerminator code points: what
    [String.prototype.trim] strips. *)
Definition is_white_space (c : N) : bool :=
  (c =? 9) || (c =? 10) || (c =? 11) || (c =? 12) || (c =? 13) ||
  (c =? 32) || (c =? 160) || (c =? 5760) ||
  ((8192 <=? c) && (c <=? 8202)) ||
  (c =? 8232) || (c =? 8233) || (c =? 8239) || (c =? 8287) ||
  (c =? 12288) || (c =? 65279).

Fixpoint trimStart (s : jsstring) : jsstring :=
  match s with
  | c :: rest => if is_white_space c then trimStart rest else s
  | [] => []
  end.

Definition trimEnd (s : jsstring) : jsstring := rev (trimStart (rev s)).

Definition trim (s : jsstring) : jsstring := trimEnd (trimStart s).

(** [s.startsWith(p)] *)
Fixpoint startsWith (s p : jsstring) {struct p} : bool :=
  match p, s with
  | [], _ => true
  | _ :: _, [] => false
  | x :: p', c :: s' => (c =? x) && startsWith s' p'
  end.

(** [s.includes(sub)] *)
Fixpoint includes (s sub : jsstring) : bool :=
  startsWith s sub ||
  match s with
  | [] => false
  | _ :: s' => includes s' sub
  end.

(** Decimal rendering of a non-negative integer, as a template literal
    renders [resp.status] or an array [length]. *)
Definition decimal (n : N) : jsstring :=
  lit (NilZero.string_of_uint (N.to_uint n)).

(* ================================================================== *)
(** ** JavaScript values *)

(** The handlers never compute with numbers: they can only test one for
    truthiness or turn it into text.  IEEE-754 doubles are therefore
    carried as these two observations. *)
Record number := {
  is_zero_or_NaN : bool;       (* the number is +0, -0 or NaN: falsy *)
  Number_toString : jsstring   (* Number::toString, e.g. "0.2", "Infinity" *)
}.

Definition number_of_N (n : N) : number :=
  {| is_zero_or_NaN := (n =? 0); Number_toString := decimal n |}.

(** The values [JSON.parse], [req.json()] and [resp.json()] can produce,
    and [undefined]. An object is its own properties in insertion order. *)
#[local] Unset Elimination Schemes.
Inductive value :=
| VUndefined
| VNull
| VBool (b : bool)
| VNum (n : number)
| VStr (s : jsstring)
| VArr (elements : list value)
| VObj (props : list (jsstring * value)).
#[local] Set Elimination Schemes.

Definition is_nullish (v : value) : bool :=
  match v with
  | VUndefined | VNull => true
  | _ => false
  end.

(** ToBoolean *)
Definition truthy (v : value) : bool :=
  match v with
  | VUndefined | VNull => false
  | VBool b => b
  | VNum n => negb (is_zero_or_NaN n)
  | VStr s => match s with [] => false | _ => true end
  | VArr _ | VObj _ => true
  end.

(** [typeof v === "string"] *)
Definition is_string (v : value) : bool :=
  match v with
  | VStr _ => true
  | _ => false
  end.

(** [a ?? b] *)
Definition nullish_coalesce (a b : value) : value :=
  if is_nullish a then b else a.

(** [a || b] *)
Definition or_else (a b : value) : value :=
  if truthy a then a else b.

Fixpoint lookup (k : jsstring) (props : list (jsstring * value)) : option value :=
  match props with
  | [] => None
  | (k', v) :: rest => if jsstring_eqb k k' then Some v else lookup k rest
  end.

(** Defining a property keeps the place of an existing key and replaces
    its value, as [JSON.parse] does for a repeated key. *)
Fixpoint define (k : jsstring) (v : value) (props : list (jsstring * value))
  : list (jsstring * value) :=
  match props with
  | [] => [(k, v)]
  | (k', v') :: rest =>
      if jsstring_eqb k k' then (k, v) :: rest else (k', v') :: define k v rest
  end.

Definition is_digit (c : N) : bool := (48 <=? c) && (c <=? 57).

Fixpoint digits_value (acc : N) (s : jsstring) : option N :=
  match s with
  | [] => Some acc
  | c :: rest =>
      if is_digit c then digits_value (10 * acc + (c - 48)) rest else None
  end.

(** A property key that is a canonical array index: "0", or digits with
    no leading zero. *)
Definition array_index (k : jsstring) : option nat :=
  match k with
  | [] => None
  | [48] => Some O
  | 48 :: _ => None
  | _ => option_map N.to_nat (digits_value 0 k)
  end.

(** Reading property [k] of a value that is neither [null] nor
    [undefined].  Own properties, array and string elements and [length]
    are modelled; methods inherited from the built-in prototypes are not
    (the handlers read only [flow], [mermaid], [notes], [choices], [0],
    [message], [content], [response] and [data]). *)
Definition get (v : value) (k : jsstring) : value :=
  match v with
  | VObj props =>
      match lookup k props with Some x => x | None => VUndefined end
  | VArr elements =>
      if jsstring_eqb k (lit "length")
      then VNum (number_of_N (N.of_nat (List.length elements)))
      else match array_index k with
           | Some i => nth i elements VUndefined
           | None => VUndefined
           end
  | VStr s =>
      if jsstring_eqb k (lit "length")
      then VNum (number_of_N (N.of_nat (List.length s)))
      else match array_index k with
           | Some i => match nth_error s i with
                       | Some c => VStr [c]
                       | None => VUndefined
                       end
           | None => VUndefined
           end
  | _ => VUndefined
  end.

(** [v?.k] *)
Definition opt_get (v : value) (k : jsstring) : value :=
  if is_nullish v then VUndefined else get v k.

(** ToString, as applied by [JSON.parse] and [String] to a non-string
    argument. *)
Fixpoint ToString (v : value) : jsstring :=
  match v with
  | VUndefined => lit "undefined"
  | VNull => lit "null"
  | VBool true => lit "true"
  | VBool false => lit "false"
  | VNum n => Number_toString n
  | VStr s => s
  | VArr elements =>
      (fix join (l : list value) : jsstring :=
         match l with
         | [] => []
         | x :: rest =>
             (if is_nullish x then [] else ToString x) ++
             match rest with
             | [] => []
             | _ :: _ => lit "," ++ join rest
             end
         end) elements
  | VObj _ => lit "[object Object]"
  end.

(* ================================================================== *)
(** ** The engine *)

(** What the JavaScript engine decides and this development does not
    compute: the rounding of a numeric literal to a double, and the text
    of the exceptions the engine itself raises. *)
Inductive access := Read | Destructure.

Record engine := {
  (* the double denoted by a JSON numeric literal *)
  StringToNumber : jsstring -> number;
  (* message of the SyntaxError of JSON.parse(text) *)
  SyntaxError_message : jsstring -> jsstring;
  (* message of the TypeError of reading / destructuring property k of
     null or undefined *)
  TypeError_message : access -> value -> jsstring -> jsstring
}.

(* ================================================================== *)
(** ** JSON.parse *)

Definition is_json_ws (c : N) : bool :=
  (c =? 9) || (c =? 10) || (c =? 13) || (c =? 32).

Fixpoint skip_ws (s : jsstring) : jsstring :=
  match s with
  | c :: rest => if is_json_ws c then skip_ws rest else s
  | [] => []
  end.

(** The next character that is not white space, and what follows it. *)
Definition next (s : jsstring) : option (N * jsstring) :=
  match skip_ws s with
  | c :: rest => Some (c, rest)
  | [] => None
  end.

Definition hex_value (c : N) : option N :=
  if is_digit c then Some (c - 48)
  else if (97 <=? c) && (c <=? 102) then Some (c - 87)
  else if (65 <=? c) && (c <=? 70) then Some (c - 55)
  else None.

Definition hex4 (a b c d : N) : option N :=
  match hex_value a, hex_value b, hex_value c, hex_value d with
  | Some x, Some y, Some z, Some w => Some (((x * 16 + y) * 16 + z) * 16 + w)
  | _, _, _, _ => None
  end.

(** The character that the letter after a backslash stands for. *)
Definition escape (e : N) : option N :=
  if e =? 34 then Some 34            (* quote *)
  else if e =? 92 then Some 92       (* backslash *)
  else if e =? 47 then Some 47       (* slash *)
  else if e =? 98 then Some 8        (* b: backspace *)
  else if e =? 102 then Some 12      (* f: form feed *)
  else if e =? 110 then Some 10      (* n: line feed *)
  else if e =? 114 then Some 13      (* r: carriage return *)
  else if e =? 116 then Some 9       (* t: tab *)
  else None.

(** The characters of a JSON string after its opening quote, up to and
    including the closing quote; [acc] holds the decoded units, reversed.
    After a backslash comes u and four hexadecimal digits, or an escape
    letter. *)
Fixpoint parse_string_body (s : jsstring) (acc : jsstring)
  : option (jsstring * jsstring) :=
  match s with
  | [] => None
  | c :: rest =>
      if c =? 34 then Some (rev acc, rest)
      else if c =? 92 then
        match rest with
        | [] => None
        | e :: rest1 =>
            if e =? 117 then
              match rest1 with
              | h1 :: h2 :: h3 :: h4 :: rest2 =>
                  match hex4 h1 h2 h3 h4 with
                  | Some u => parse_string_body rest2 (u :: acc)
                  | None => None
                  end
              | _ => None
              end
            else
              match escape e with
              | Some u => parse_string_body rest1 (u :: acc)
              | None => None
              end
        end
      else if c <? 32 then None
      else parse_string_body rest (c :: acc)
  end.

Fixpoint span_digits (s : jsstring) : jsstring * jsstring :=
  match s with
  | c :: rest =>
      if is_digit c
      then let (d, r) := span_digits rest in (c :: d, r)
      else ([], s)
  | [] => ([], [])
  end.

(** One or more digits. *)
Definition digits1 (s : jsstring) : option (jsstring * jsstring) :=
  match span_digits s with
  | ([], _) => None
  | (d, r) => Some (d, r)
  end.

(** An optional first character satisfying [p]. *)
Definition optional (p : N -> bool) (s : jsstring) : jsstring * jsstring :=
  match s with
  | c :: rest => if p c then ([c], rest) else ([], s)
  | [] => ([], [])
  end.

(** A single 0, or digits (a digit after a leading 0 is left behind and
    makes the text invalid later). *)
Definition scan_int (s : jsstring) : option (jsstring * jsstring) :=
  match s with
  | c :: rest => if c =? 48 then Some ([c], rest) else digits1 s
  | [] => None
  end.

(** Optionally, a point and one or more digits. *)
Definition scan_frac (s : jsstring) : option (jsstring * jsstring) :=
  match s with
  | c :: rest =>
      if c =? 46 then
        match digits1 rest with
        | Some (d, r) => Some (c :: d, r)
        | None => None
        end
      else Some ([], s)
  | [] => Some ([], [])
  end.

(** Optionally, e or E, an optional sign and one or more digits. *)
Definition scan_exp (s : jsstring) : option (jsstring * jsstring) :=
  match s with
  | e :: rest =>
      if (e =? 101) || (e =? 69) then
        let (sign, r1) := optional (fun c => (c =? 43) || (c =? 45)) rest in
        match digits1 r1 with
        | Some (d, r2) => Some (e :: sign ++ d, r2)
        | None => None
        end
      else Some ([], s)
  | [] => Some ([], [])
  end.

(** A JSON number: an optional minus sign, the integer part, the optional
    fraction and the optional exponent.  Returns the literal and what
    follows it. *)
Definition scan_number (s : jsstring) : option (jsstring * jsstring) :=
  let (sign, s1) := optional (fun c => c =? 45) s in
  match scan_int s1 with
  | None => None
  | Some (int, s2) =>
      match scan_frac s2 with
      | None => None
      | Some (frac, s3) =>
          match scan_exp s3 with
          | None => None
          | Some (ex, s4) => Some (sign ++ int ++ frac ++ ex, s4)
          end
      end
  end.

Section Parser.
Variable E : engine.

(** Recursive descent; every call takes one unit of [fuel]. *)
Fixpoint parse_value (fuel : nat) (s : jsstring) {struct fuel}
  : option (value * jsstring) :=
  match fuel with
  | O => None
  | S fuel =>
      match next s with
      | None => None
      | Some (c, rest) =>
          if c =? 123 then                                   (* { *)
            match next rest with
            | Some (c', rest') =>
                if c' =? 125 then Some (VObj [], rest')
                else parse_members fuel rest []
            | None => None
            end
          else if c =? 91 then                               (* [ *)
            match next rest with
            | Some (c', rest') =>
                if c' =? 93 then Some (VArr [], rest')
                else parse_elements fuel rest []
            | None => None
            end
          else if c =? 34 then                               (* quote *)
            match parse_string_body rest [] with
            | Some (str, rest') => Some (VStr str, rest')
            | None => None
            end
          else if startsWith (c :: rest) (lit "true") then
            Some (VBool true, skipn 4 (c :: rest))
          else if startsWith (c :: rest) (lit "false") then
            Some (VBool false, skipn 5 (c :: rest))
          else if startsWith (c :: rest) (lit "null") then
            Some (VNull, skipn 4 (c :: rest))
          else
            match scan_number (c :: rest) with
            | Some (literal, rest') =>
                Some (VNum (StringToNumber E literal), rest')
            | None => None
            end
      end
  end
with parse_elements (fuel : nat) (s : jsstring) (acc : list value)
       {struct fuel} : option (value * jsstring) :=
  match fuel with
  | O => None
  | S fuel =>
      match parse_value fuel s with
      | None => None
      | Some (v, rest) =>
          match next rest with
          | Some (c, rest') =>
              if c =? 44 then parse_elements fuel rest' (v :: acc)   (* , *)
              else if c =? 93 then Some (VArr (rev (v :: acc)), rest')
              else None
          | None => None
          end
      end
  end
with parse_members (fuel : nat) (s : jsstring)
       (acc : list (jsstring * value)) {struct fuel}
       : option (value * jsstring) :=
  match fuel with
  | O => None
  | S fuel =>
      match next s with
      | None => None
      | Some (q, rest) =>
          if q =? 34 then                                    (* quote *)
            match parse_string_body rest [] with
            | None => None
            | Some (k, rest1) =>
                match next rest1 with
                | None => None
                | Some (colon, rest2) =>
                    if colon =? 58 then                      (* : *)
                      match parse_value fuel rest2 with
                      | None => None
                      | Some (v, rest3) =>
                          match next rest3 with
                          | Some (c, rest4) =>
                              if c =? 44 then                (* , *)
                                parse_members fuel rest4 (define k v acc)
                              else if c =? 125 then
                                Some (VObj (define k v acc), rest4)
                              else None
                          | None => None
                          end
                      end
                    else None
                end
            end
          else None
      end
  end.

(** The fuel that a text of this length cannot exhaust. *)
Definition enough_fuel (s : jsstring) : nat := 2 * List.length s + 1.

(** A whole JSON text: one value between optional white space.  [None]
    is the SyntaxError. *)
Definition parse_text (s : jsstring) : option value :=
  match parse_value (enough_fuel s) s with
  | Some (v, rest) =>
      match skip_ws rest with
      | [] => Some v
      | _ :: _ => None
      end
  | None => None
  end.

(** [JSON.parse(v)]: the argument is first converted to a string. *)
Definition JSON_parse (v : value) : option value := parse_text (ToString v).
End Parser.

(** An engine to run examples on.  A numeric literal is rendered as it was
    written, which is what V8 prints for literals already in canonical form
    (0, 7, 0.2) and not for the others.  The messages follow V8's wording;
    the offending token is taken to be the first character of the text,
    as it is when the text cannot even start a JSON value. *)
Definition v8 : engine := {|
  StringToNumber := fun l =>
    {| is_zero_or_NaN := forallb (fun c => negb (is_digit c) || (c =? 48)) l;
       Number_toString := l |};
  SyntaxError_message := fun text =>
    match trimStart text with
    | [] => lit "Unexpected end of JSON input"
    | c :: _ => lit "Unexpected token '" ++ [c] ++ lit "', " ++ [34] ++ text
                ++ [34] ++ lit " is not valid JSON"
    end;
  TypeError_message := fun a v k =>
    match a with
    | Read => lit "Cannot read properties of " ++ ToString v
              ++ lit " (reading '" ++ k ++ lit "')"
    | Destructure => lit "Cannot destructure property '" ++ k
              ++ lit "' of '(intermediate value)' as it is "
              ++ ToString v ++ lit "."
    end
|}.

(* ================================================================== *)
(** ** Exceptions, awaited results and the upstream call *)

(** What a [catch] clause can receive: an [Error] instance with its
    [name], [message] and [response] property ([undefined] when it has
    none), or any other thrown value. *)
Inductive thrown :=
| ThrowError (name message : jsstring) (response : value)
| ThrowValue (v : value).

(** How an awaited promise settles, or how an expression completes. *)
Inductive outcome (A : Type) :=
| Returned (a : A)
| Threw (e : thrown).
Arguments Returned {A} a.
Arguments Threw {A} e.

(** The second argument of [fetch]; [body] is the argument of
    [JSON.stringify]. *)
Record fetch_init := {
  method : jsstring;
  headers : list (jsstring * jsstring);
  body : value
}.

(** The upstream HTTP response as the handler can observe it. *)
Record response := {
  status : N;
  text : outcome jsstring;   (* await resp.text() *)
  json : outcome value       (* await resp.json() *)
}.

(** [resp.ok] *)
Definition ok (r : response) : bool := (200 <=? status r) && (status r <=? 299).

(** A call to the text-generation service. *)
Inductive call :=
| Fetch (url : jsstring) (init : fetch_init)
| Create (apiKey : jsstring) (params : value).

(** Everything outside the handler: the engine, the environment variables
    ([None] when unset), the request body and the upstream service. *)
Record world := {
  js_engine : engine;
  OPENAI_API_KEY : option jsstring;
  OPENAI_MODEL : option jsstring;
  (* await req.json() *)
  req_json : outcome value;
  (* await fetch(url, init) *)
  fetch : jsstring -> fetch_init -> outcome response;
  (* await new OpenAI({ apiKey }).chat.completions.create(params) *)
  create : jsstring -> value -> outcome value
}.

(** A computation of the handler: the upstream calls made so far and how
    it completed. *)
Definition js (A : Type) : Type := list call * outcome A.

Definition ret {A} (a : A) : js A := ([], Returned a).

Definition throw {A} (e : thrown) : js A := ([], Threw e).

Definition bind {A B} (c : js A) (k : A -> js B) : js B :=
  match c with
  | (calls, Returned a) => let (calls', r) := k a in (calls ++ calls', r)
  | (calls, Threw e) => (calls, Threw e)
  end.

Notation "x <- c ;; k" := (bind c (fun x => k))
  (at level 61, c at next level, right associativity).

(** Awaiting something the environment settles without calling upstream. *)
Definition await {A} (o : outcome A) : js A := ([], o).

Definition call_fetch (w : world) (url : jsstring) (init : fetch_init)
  : js response :=
  ([Fetch url init], fetch w url init).

Definition call_create (w : world) (apiKey : jsstring) (params : value)
  : js value :=
  ([Create apiKey params], create w apiKey params).

Definition TypeError (E : engine) (a : access) (v : value) (k : jsstring)
  : thrown :=
  ThrowError (lit "TypeError") (TypeError_message E a v k) VUndefined.

Definition SyntaxError (E : engine) (source : jsstring) : thrown :=
  ThrowError (lit "SyntaxError") (SyntaxError_message E source) VUndefined.

(** [v.k] *)
Definition member (E : engine) (v : value) (k : jsstring) : js value :=
  if is_nullish v then throw (TypeError E Read v k) else ret (get v k).

(** [const { k } = v] *)
Definition destructure (E : engine) (v : value) (k : jsstring) : js value :=
  if is_nullish v then throw (TypeError E Destructure v k) else ret (get v k).

(** [JSON.parse(v)] outside any inner [try] *)
Definition JSON_parse_or_throw (E : engine) (v : value) : js value :=
  match JSON_parse E v with
  | Some parsed => ret parsed
  | None => throw (SyntaxError E (ToString v))
  end.

(** [process.env.X || fallback] *)
Definition env_or (x : option jsstring) (fallback : jsstring) : jsstring :=
  match x with
  | Some (c :: s) => c :: s
  | _ => fallback
  end.

(** [!process.env.X] *)
Definition env_missing (x : option jsstring) : bool :=
  match x with
  | Some (_ :: _) => false
  | _ => true
  end.

(** [`${process.env.X}`] *)
Definition env_text (x : option jsstring) : jsstring :=
  match x with
  | Some s => s
  | None => lit "undefined"
  end.

(* ================================================================== *)
(** ** The HTTP response of the endpoint *)

Record http_response := {
  status_code : N;
  payload : value      (* the object given to NextResponse.json *)
}.

(** [NextResponse.json(payload)] and [NextResponse.json(payload, { status })] *)
Definition NextResponse_json (payload : value) (status : option N)
  : http_response :=
  {| status_code := match status with Some st => st | None => 200 end;
     payload := payload |}.

Definition error_body (message : jsstring) : value :=
  VObj [(lit "error", VStr message)].

Definition diagram_body (mermaid notes : jsstring) : value :=
  VObj [(lit "mermaid", VStr mermaid); (lit "notes", VStr notes)].

(* ================================================================== *)
(** ** What the three revisions share *)

Definition GRAMMAR_MARKER : jsstring := lit "sequenceDiagram".

Definition MSG_LONGER_NARRATIVE : jsstring :=
  lit "Please provide a longer narrative.".

Definition MSG_INVALID_JSON : jsstring := lit "Model did not return valid JSON.".

Definition MSG_INVALID_MERMAID_RETRY : jsstring :=
  lit "Model did not return valid Mermaid. Try again.".

Definition MSG_INVALID_MERMAID : jsstring :=
  lit "Model did not return valid Mermaid.".

Definition OPENAI_URL : jsstring :=
  lit "https://api.openai.com/v1/chat/completions".

Definition system_prompt : jsstring :=
  lit "You convert payments narratives into accurate Mermaid sequence diagrams.".

(** The template literal [user]; in Rocq strings a backslash is an
    ordinary character, as the doubled backslash of the source yields. *)
Definition user_prompt (flow : jsstring) : jsstring :=
  [10] ++ lit "Lifelines: Customer, Merchant, PSP, Network, Issuer." ++
  [10] ++ lit "Include: authorization, capture, settlement, refund or void if relevant." ++
  [10] ++ jtext "Return JSON only: { 'mermaid': '...', 'notes': '- bullet\n- bullet' }" ++
  [10; 10] ++ lit "Narrative:" ++
  [10] ++ lit "<<<" ++ flow ++ lit ">>>".

Definition temperature : number :=
  {| is_zero_or_NaN := false; Number_toString := lit "0.2" |}.

(** The chat-completion request object. *)
Definition completion_params (model flow : jsstring) : value :=
  VObj [ (lit "model", VStr model);
         (lit "temperature", VNum temperature);
         (lit "messages",
           VArr [ VObj [(lit "role", VStr (lit "system"));
                        (lit "content", VStr system_prompt)];
                  VObj [(lit "role", VStr (lit "user"));
                        (lit "content", VStr (user_prompt flow))] ]);
         (lit "response_format",
           VObj [(lit "type", VStr (lit "json_object"))]) ].

Definition fetch_request (w : world) (model flow : jsstring) : fetch_init :=
  {| method := lit "POST";
     headers := [ (lit "Authorization",
                   lit "Bearer " ++ env_text (OPENAI_API_KEY w));
                  (lit "Content-Type", lit "application/json") ];
     body := completion_params model flow |}.

(** [x?.choices?.[0]?.message?.content] *)
Definition message_content (x : value) : value :=
  opt_get (opt_get (opt_get (opt_get x (lit "choices")) (lit "0"))
             (lit "message")) (lit "content").

(** [x?.choices?.[0]?.message?.content ?? "{}"] *)
Definition content_of (x : value) : value :=
  nullish_coalesce (message_content x) (VStr (lit "{}")).

(** [typeof x === "string" ? x : empty], [empty] being the empty string *)
Definition string_or_empty (x : value) : jsstring :=
  match x with
  | VStr s => s
  | _ => []
  end.

(** [flow.trim().length < 10], reached only when [flow] is a string *)
Definition trimmed_length_below_10 (flow : value) : bool :=
  N.of_nat (List.length (trim (string_or_empty flow))) <? 10.

(** Leaving a [try] block: a return value passes, an exception goes to
    the [catch] clause. *)
Definition try_catch (c : js http_response) (handler : thrown -> http_response)
  : list call * http_response :=
  match c with
  | (calls, Returned r) => (calls, r)
  | (calls, Threw e) => (calls, handler e)
  end.

(* ================================================================== *)
(** ** payments-diagram/app/api/flow/route.ts *)

Module RouteTs.

(** The second argument of [fetch]. *)
Definition request_init (w : world) (flow : jsstring) : fetch_init :=
  fetch_request w (env_or (OPENAI_MODEL w) (lit "gpt-3.5-turbo")) flow.

Definition handler (w : world) : js http_response :=
  let E := js_engine w in
  request <- await (req_json w) ;;
  flow <- destructure E request (lit "flow") ;;
  if negb (truthy flow) || negb (is_string flow) || trimmed_length_below_10 flow
  then ret (NextResponse_json (error_body MSG_LONGER_NARRATIVE) (Some 400))
  else
    let flow := string_or_empty flow in
    resp <- call_fetch w OPENAI_URL (request_init w flow) ;;
    if negb (ok resp)
    then
      t <- await (text resp) ;;
      ret (NextResponse_json (error_body t) (Some 500))
    else
      data <- await (json resp) ;;
      let content := content_of data in
      parsed <- JSON_parse_or_throw E content ;;
      parsed_mermaid <- member E parsed (lit "mermaid") ;;
      let mermaid := string_or_empty parsed_mermaid in
      parsed_notes <- member E parsed (lit "notes") ;;
      let notes := string_or_empty parsed_notes in
      if negb (startsWith mermaid GRAMMAR_MARKER)
      then ret (NextResponse_json (error_body MSG_INVALID_MERMAID_RETRY)
                  (Some 500))
      else ret (NextResponse_json (diagram_body mermaid notes) None).

(** [err instanceof Error ? err.message : "Unknown error"] *)
Definition message_of (err : thrown) : jsstring :=
  match err with
  | ThrowError _ message _ => message
  | ThrowValue _ => lit "Unknown error"
  end.

Definition on_error (err : thrown) : http_response :=
  NextResponse_json (error_body (message_of err)) (Some 500).

Definition POST (w : world) : list call * http_response :=
  try_catch (handler w) on_error.

End RouteTs.

(* ================================================================== *)
(** ** unnamed/part_001 *)

Module Part001.

Definition MSG_MISSING_KEY : jsstring :=
  lit "Missing OPENAI_API_KEY in .env.local".

(** [`OpenAI error (${resp.status}): ${t}`] *)
Definition upstream_error (resp : response) (t : jsstring) : jsstring :=
  lit "OpenAI error (" ++ decimal (status resp) ++ lit "): " ++ t.

(** [await req.json().catch(() => ({}))] *)
Definition request_or_empty (w : world) : value :=
  match req_json w with
  | Returned v => v
  | Threw _ => VObj []
  end.

(** The second argument of [fetch]. *)
Definition request_init (w : world) (flow : jsstring) : fetch_init :=
  fetch_request w (env_or (OPENAI_MODEL w) (lit "gpt-4o-mini")) flow.

Definition handler (w : world) : js http_response :=
  let E := js_engine w in
  if env_missing (OPENAI_API_KEY w)
  then ret (NextResponse_json (error_body MSG_MISSING_KEY) (Some 500))
  else
    flow <- destructure E (request_or_empty w) (lit "flow") ;;
    if negb (truthy flow) || negb (is_string flow)
       || trimmed_length_below_10 flow
    then ret (NextResponse_json (error_body MSG_LONGER_NARRATIVE) (Some 400))
    else
      let flow := string_or_empty flow in
      resp <- call_fetch w OPENAI_URL (request_init w flow) ;;
      if negb (ok resp)
      then
        t <- await (text resp) ;;
        ret (NextResponse_json (error_body (upstream_error resp t))
               (Some 500))
      else
        data <- await (json resp) ;;
        let content := content_of data in
        match JSON_parse E content with
        | None =>
            ret (NextResponse_json (error_body MSG_INVALID_JSON) (Some 500))
        | Some parsed =>
            parsed_mermaid <- member E parsed (lit "mermaid") ;;
            let mermaid := string_or_empty parsed_mermaid in
            parsed_notes <- member E parsed (lit "notes") ;;
            let notes := string_or_empty parsed_notes in
            if negb (startsWith mermaid GRAMMAR_MARKER)
            then ret (NextResponse_json
                        (error_body MSG_INVALID_MERMAID_RETRY) (Some 500))
            else ret (NextResponse_json (diagram_body mermaid notes) None)
        end.

Definition on_error (err : thrown) : http_response :=
  NextResponse_json (error_body (RouteTs.message_of err)) (Some 500).

Definition POST (w : world) : list call * http_response :=
  try_catch (handler w) on_error.

End Part001.

(* ================================================================== *)
(** ** unnamed/part_002 *)

Module Part002.

Definition MSG_MISSING_KEY : jsstring := lit "Missing OPENAI_API_KEY".

Definition MSG_SERVER_ERROR : jsstring := lit "Server error".

(** [await request.json().catch(() => ({}))] *)
Definition request_or_empty (w : world) : value :=
  match req_json w with
  | Returned v => v
  | Threw _ => VObj []
  end.

(** The argument of [client.chat.completions.create]. *)
Definition params (w : world) (flow : jsstring) : value :=
  completion_params (env_or (OPENAI_MODEL w) (lit "gpt-4o-mini")) flow.

Definition handler (w : world) : js http_response :=
  let E := js_engine w in
  let apiKey := OPENAI_API_KEY w in
  if env_missing apiKey
  then ret (NextResponse_json (error_body MSG_MISSING_KEY) (Some 500))
  else
    let apiKey := env_text apiKey in
    body_flow <- member E (request_or_empty w) (lit "flow") ;;
    let flow := match body_flow with
                | VStr s => trim s
                | _ => []
                end in
    if N.of_nat (List.length flow) <? 10
    then ret (NextResponse_json (error_body MSG_LONGER_NARRATIVE) (Some 400))
    else
      resp <- call_create w apiKey (params w flow) ;;
      let content := content_of resp in
      match JSON_parse E content with
      | None =>
          ret (NextResponse_json (error_body MSG_INVALID_JSON) (Some 500))
      | Some parsed =>
          parsed_mermaid <- member E parsed (lit "mermaid") ;;
          let mermaid := string_or_empty parsed_mermaid in
          parsed_notes <- member E parsed (lit "notes") ;;
          let notes := string_or_empty parsed_notes in
          if negb (startsWith mermaid GRAMMAR_MARKER)
          then ret (NextResponse_json (error_body MSG_INVALID_MERMAID)
                      (Some 500))
          else ret (NextResponse_json (diagram_body mermaid notes) None)
      end.

(** [Error.prototype.toString] *)
Definition Error_toString (name message : jsstring) : jsstring :=
  match name, message with
  | [], _ => message
  | _, [] => name
  | _, _ => name ++ lit ": " ++ message
  end.

(** [err?.response?.data || err?.message || String(err)] *)
Definition detail_of (err : thrown) : value :=
  match err with
  | ThrowError name message response =>
      or_else (or_else (opt_get response (lit "data")) (VStr message))
        (VStr (Error_toString name message))
  | ThrowValue v =>
      or_else (or_else (opt_get (opt_get v (lit "response")) (lit "data"))
                 (opt_get v (lit "message")))
        (VStr (ToString v))
  end.

Definition on_error (err : thrown) : http_response :=
  NextResponse_json
    (VObj [(lit "error", VStr MSG_SERVER_ERROR); (lit "detail", detail_of err)])
    (Some 500).

Definition POST (w : world) : list call * http_response :=
  try_catch (handler w) on_error.

End Part002.

(* ================================================================== *)
(** ** app/page.tsx: cleanApiError *)

Definition MSG_QUOTA : jsstring :=
  lit "API quota unavailable. Add billing or switch to a key with credits.".

(** The apostrophe of the source text is U+2019. *)
Definition MSG_RENDER : jsstring :=
  lit "Couldn" ++ [8217] ++ lit "t render the diagram. Please Generate again.".

Definition MSG_UNEXPECTED : jsstring :=
  lit "Server returned an unexpected response. Please try again.".

Definition cleanApiError (msg : jsstring) : jsstring :=
  if includes msg (lit "insufficient_quota") then MSG_QUOTA
  else if includes msg (lit "Model did not return") then MSG_RENDER
  else if startsWith (trim msg) (lit "{") then MSG_UNEXPECTED
  else msg.

(* ================================================================== *)
(** ** The specification's vocabulary *)

(** "the field is absent, not text, or shorter than a minimum threshold
    after trimming whitespace" *)
Definition flow_unusable (flow : value) : bool :=
  match flow with
  | VStr s => N.of_nat (List.length (trim s)) <? 10
  | _ => true
  end.

(** The client error of the validation step. *)
Definition rejection : http_response :=
  {| status_code := 400; payload := error_body MSG_LONGER_NARRATIVE |}.

(** A server error with the given message. *)
Definition server_error (message : jsstring) : http_response :=
  {| status_code := 500; payload := error_body message |}.

(** The success response. *)
Definition diagram (mermaid notes : jsstring) : http_response :=
  {| status_code := 200; payload := diagram_body mermaid notes |}.

(** The request body is a JSON value other than [null] whose [flow] is the
    string [f], at least 10 code units long once trimmed. *)
Definition accepted (w : world) (f : jsstring) : Prop :=
  exists request,
    req_json w = Returned request /\ is_nullish request = false /\
    get request (lit "flow") = VStr f /\ flow_unusable (VStr f) = false.

(** The service answers the [fetch] with a 2xx response whose body is the
    JSON value [data]. *)
Definition delivers (w : world) (init : fetch_init) (data : value) : Prop :=
  exists resp,
    fetch w OPENAI_URL init = Returned resp /\ ok resp = true /\
    json resp = Returned data.

(** The service answers the [fetch] with the non-2xx response [resp] whose
    body is the text [t]. *)
Definition refuses (w : world) (init : fetch_init) (resp : response)
  (t : jsstring) : Prop :=
  fetch w OPENAI_URL init = Returned resp /\ ok resp = false /\
  text resp = Returned t.

(** The specification's last two steps on a parsed result: "extracts the
    two expected text fields, defaulting each to empty text if the field is
    missing or the wrong type", then "the diagram text must start with the
    fixed grammar marker". *)
Definition text_field (parsed : value) (k : jsstring) : jsstring :=
  match get parsed k with
  | VStr s => s
  | _ => []
  end.

Definition settle (invalid_message : jsstring) (parsed : value)
  : http_response :=
  if startsWith (text_field parsed (lit "mermaid")) GRAMMAR_MARKER
  then diagram (text_field parsed (lit "mermaid")) (text_field parsed (lit "notes"))
  else server_error invalid_message.

(** The two response shapes of the external interface.  Success: status
    200 and a body [{ mermaid: string, notes: string }].  Failure: a status
    outside 200..299 and a body whose first field is [error], holding a
    string, and which has no [mermaid] and no [notes] field. *)
Definition is_2xx (st : N) : bool := (200 <=? st) && (st <=? 299).

Definition success_shape (r : http_response) : Prop :=
  status_code r = 200 /\
  exists mermaid notes,
    payload r = VObj [(lit "mermaid", VStr mermaid); (lit "notes", VStr notes)].

Definition failure_shape (r : http_response) : Prop :=
  is_2xx (status_code r) = false /\
  exists message extra,
    payload r = VObj ((lit "error", VStr message) :: extra) /\
    lookup (lit "mermaid") extra = None /\
    lookup (lit "notes") extra = None.

(** The failure body is [{ error: string }] and nothing else. *)
Definition bare_failure_shape (r : http_response) : Prop :=
  is_2xx (status_code r) = false /\
  exists message, payload r = error_body message.

Definition one_of_two_shapes (r : http_response) : Prop :=
  (success_shape r /\ ~ failure_shape r) \/
  (failure_shape r /\ ~ success_shape r).

(** The responses built in the handled branches. *)
Definition handled (r : http_response) : Prop :=
  success_shape r \/ bare_failure_shape r.

(** A property of the response that holds however the computation
    returns. *)
Definition returns (P : http_response -> Prop) (c : js http_response) : Prop :=
  match snd c with
  | Returned r => P r
  | Threw _ => True
  end.

(** The response of part_002's [catch] clause. *)
Definition server_error_with_detail (detail : value) : http_response :=
  {| status_code := 500;
     payload := VObj [ (lit "error", VStr Part002.MSG_SERVER_ERROR);
                       (lit "detail", detail) ] |}.

(* ================================================================== *)
(** ** Sample worlds *)

Definition no_upstream : world := {|
  js_engine := v8;
  OPENAI_API_KEY := Some (lit "sk-test");
  OPENAI_MODEL := None;
  req_json := Returned (VObj []);
  fetch := fun _ _ =>
    Threw (ThrowError (lit "TypeError") (lit "fetch failed") VUndefined);
  create := fun _ _ =>
    Threw (ThrowError (lit "Error") (lit "Connection error.") VUndefined)
|}.

Definition with_request (request : outcome value) (w : world) : world := {|
  js_engine := js_engine w;
  OPENAI_API_KEY := OPENAI_API_KEY w;
  OPENAI_MODEL := OPENAI_MODEL w;
  req_json := request;
  fetch := fetch w;
  create := create w
|}.

Definition without_key (w : world) : world := {|
  js_engine := js_engine w;
  OPENAI_API_KEY := None;
  OPENAI_MODEL := OPENAI_MODEL w;
  req_json := req_json w;
  fetch := fetch w;
  create := create w
|}.

(** [{ flow: f }] *)
Definition flow_request (f : jsstring) : value := VObj [(lit "flow", VStr f)].

(** A narrative of nine characters. *)
Definition nine : jsstring := lit "card paid".

(** A narrative long enough to be accepted. *)
Definition narrative : jsstring := lit "Customer pays the merchant by card.".

(** What [resp.json()] makes of a body. *)
Definition body_json (E : engine) (t : jsstring) : outcome value :=
  match parse_text E t with
  | Some v => Returned v
  | None => Threw (SyntaxError E t)
  end.

(** The JSON value a body text denotes ([undefined] if it denotes none). *)
Definition json_of (t : jsstring) : value :=
  match parse_text v8 t with
  | Some v => v
  | None => VUndefined
  end.

(** The request carries [narrative], the API key is set, and the service
    answers every call with HTTP status [st] and body text [t]; the SDK
    turns a non-2xx answer into an exception. *)
Definition service (st : N) (t : jsstring) : world := {|
  js_engine := v8;
  OPENAI_API_KEY := Some (lit "sk-test");
  OPENAI_MODEL := None;
  req_json := Returned (flow_request narrative);
  fetch := fun _ _ =>
    Returned {| status := st; text := Returned t; json := body_json v8 t |};
  create := fun _ _ =>
    if (200 <=? st) && (st <=? 299) then body_json v8 t
    else Threw (ThrowError (lit "Error") (decimal st ++ lit " " ++ t) VUndefined)
|}.

(** The body of a chat completion whose message content is the JSON text
    written between the apostrophes (a backslash before each inner quote,
    two before an escape of the inner text). *)
Definition completion_of_diagram : jsstring :=
  jtext "{'choices':[{'message':{'role':'assistant','content':'{\'mermaid\':\'sequenceDiagram\\nCustomer->>Merchant: pay\',\'notes\':\'- a\\n- b\'}'}}]}".

Definition completion_of_flowchart : jsstring :=
  jtext "{'choices':[{'message':{'role':'assistant','content':'{\'mermaid\':\'graph TD;A-->B\',\'notes\':\'- a\\n- b\'}'}}]}".

Definition completion_of_indented_diagram : jsstring :=
  jtext "{'choices':[{'message':{'role':'assistant','content':'{\'mermaid\':\' sequenceDiagram\\nCustomer->>Merchant: pay\',\'notes\':\'- a\'}'}}]}".

Definition completion_of_numeric_notes : jsstring :=
  jtext "{'choices':[{'message':{'role':'assistant','content':'{\'mermaid\':\'sequenceDiagram\\nCustomer->>Merchant: pay\',\'notes\':7}'}}]}".

Definition completion_of_prose : jsstring :=
  jtext "{'choices':[{'message':{'role':'assistant','content':'oops'}}]}".

Definition completion_without_content : jsstring :=
  jtext "{'choices':[{'message':{'role':'assistant','content':null}}]}".

Definition completion_with_object_content : jsstring :=
  jtext "{'choices':[{'message':{'role':'assistant','content':{}}}]}".

(* ================================================================== *)
(** ** JSON.stringify *)

Definition is_high_surrogate (c : N) : bool := (55296 <=? c) && (c <=? 56319).

Definition is_low_surrogate (c : N) : bool := (56320 <=? c) && (c <=? 57343).

(** A hexadecimal digit, in lower case. *)
Definition hex_digit (d : N) : N := if d <? 10 then 48 + d else 87 + d.

(** The escape of a code unit by its four hexadecimal digits. *)
Definition unicode_escape (c : N) : jsstring :=
  [92; 117; hex_digit (c / 4096); hex_digit ((c / 256) mod 16);
   hex_digit ((c / 16) mod 16); hex_digit (c mod 16)].

(** A code unit that is not a surrogate, inside a quoted string: the
    two-character escapes, the remaining control characters by their
    digits, and every other unit as it is. *)
Definition quote_unit (c : N) : jsstring :=
  if c =? 8 then [92; 98]
  else if c =? 9 then [92; 116]
  else if c =? 10 then [92; 110]
  else if c =? 12 then [92; 102]
  else if c =? 13 then [92; 114]
  else if c =? 34 then [92; 34]
  else if c =? 92 then [92; 92]
  else if c <? 32 then unicode_escape c
  else [c].

(** QuoteJSONString without its two quotes: a surrogate pair is kept, a
    surrogate on its own is escaped. *)
Fixpoint quote_units (s : jsstring) : jsstring :=
  match s with
  | [] => []
  | c :: rest =>
      if is_high_surrogate c then
        match rest with
        | d :: rest' =>
            if is_low_surrogate d then c :: d :: quote_units rest'
            else unicode_escape c ++ quote_units rest
        | [] => unicode_escape c
        end
      else if is_low_surrogate c then unicode_escape c ++ quote_units rest
      else quote_unit c ++ quote_units rest
  end.

Definition QuoteJSONString (s : jsstring) : jsstring :=
  [34] ++ quote_units s ++ [34].

(** A number that is NaN or an infinity, which JSON renders as null. *)
Definition is_non_finite (n : number) : bool :=
  jsstring_eqb (Number_toString n) (lit "NaN")
  || jsstring_eqb (Number_toString n) (lit "Infinity")
  || jsstring_eqb (Number_toString n) (lit "-Infinity").

(** A property key that is an array index: such keys are enumerated
    first, in ascending order. *)
Definition index_key (k : jsstring) : option N :=
  match k with
  | [] => None
  | c :: rest =>
      if (c =? 48) && negb (match rest with [] => true | _ :: _ => false end)
      then None
      else match digits_value 0 k with
           | Some n => if n <? 4294967295 then Some n else None
           | None => None
           end
  end.

Fixpoint insert_index {A} (i : N) (x : A) (sorted : list (N * A))
  : list (N * A) :=
  match sorted with
  | [] => [(i, x)]
  | (j, y) :: rest =>
      if i <? j then (i, x) :: sorted else (j, y) :: insert_index i x rest
  end.

Fixpoint indexed_entries {A} (entries : list (jsstring * A))
  : list (N * (jsstring * A)) :=
  match entries with
  | [] => []
  | (k, x) :: rest =>
      match index_key k with
      | Some i => insert_index i (k, x) (indexed_entries rest)
      | None => indexed_entries rest
      end
  end.

Fixpoint named_entries {A} (entries : list (jsstring * A))
  : list (jsstring * A) :=
  match entries with
  | [] => []
  | (k, x) :: rest =>
      match index_key k with
      | Some _ => named_entries rest
      | None => (k, x) :: named_entries rest
      end
  end.

(** The order in which the own properties of an object are enumerated. *)
Definition enumeration_order {A} (entries : list (jsstring * A))
  : list (jsstring * A) :=
  map snd (indexed_entries entries) ++ named_entries entries.

Fixpoint join (sep : jsstring) (parts : list jsstring) : jsstring :=
  match parts with
  | [] => []
  | [p] => p
  | p :: rest => p ++ sep ++ join sep rest
  end.

(** The members of an object that have a rendering, as "key":rendering. *)
Fixpoint rendered_members (entries : list (jsstring * option jsstring))
  : list jsstring :=
  match entries with
  | [] => []
  | (k, Some t) :: rest =>
      (QuoteJSONString k ++ lit ":" ++ t) :: rendered_members rest
  | (_, None) :: rest => rendered_members rest
  end.

(** [JSON.stringify(v)] without indentation; [None] is [undefined]. *)
Fixpoint JSON_stringify (v : value) : option jsstring :=
  match v with
  | VUndefined => None
  | VNull => Some (lit "null")
  | VBool true => Some (lit "true")
  | VBool false => Some (lit "false")
  | VNum n => Some (if is_non_finite n then lit "null" else Number_toString n)
  | VStr s => Some (QuoteJSONString s)
  | VArr elements =>
      Some (lit "[" ++
            join (lit ",")
              ((fix each (l : list value) : list jsstring :=
                  match l with
                  | [] => []
                  | x :: rest =>
                      match JSON_stringify x with
                      | Some t => t
                      | None => lit "null"
                      end :: each rest
                  end) elements) ++
            lit "]")
  | VObj props =>
      Some (lit "{" ++
            join (lit ",")
              (rendered_members
                 (enumeration_order
                    ((fix each (l : list (jsstring * value))
                        : list (jsstring * option jsstring) :=
                        match l with
                        | [] => []
                        | (k, x) :: rest => (k, JSON_stringify x) :: each rest
                        end) props))) ++
            lit "}")
  end.

(** The text of a body built from an object (always defined). *)
Definition body_text (v : value) : jsstring :=
  match JSON_stringify v with
  | Some t => t
  | None => []
  end.

(* ================================================================== *)
(** ** app/api/env/route.js *)

Module EnvRoute.

(** A [Response] built from a text. *)
Record text_response := {
  response_status : N;
  response_headers : list (jsstring * jsstring);
  response_body : jsstring
}.

(** [!!process.env.OPENAI_API_KEY] *)
Definition hasKey (w : world) : bool := negb (env_missing (OPENAI_API_KEY w)).

Definition GET (w : world) : text_response :=
  {| response_status := 200;
     response_headers := [(lit "Content-Type", lit "application/json")];
     response_body := body_text (VObj [(lit "hasKey", VBool (hasKey w))]) |}.

End EnvRoute.

(* ================================================================== *)
(** ** The endpoint as the browser sees it *)

(** [NextResponse.json(payload, { status })] on the wire: the status and
    the JSON text of the payload, which [r.text()] returns and [r.json()]
    parses. *)
Definition served (E : engine) (r : http_response) : response :=
  {| status := status_code r;
     text := Returned (body_text (payload r));
     json := body_json E (body_text (payload r)) |}.

(** The world of the handler for a request sent by the browser: the
    request body is the JSON text of the [body] of the [fetch]. *)
Definition arriving (site : world) (init : fetch_init) : world :=
  with_request (body_json (js_engine site) (body_text (body init))) site.

(** The browser's [fetch] when the site runs the handler [POST]. *)
Definition site_fetch (POST : world -> list call * http_response)
  (site : world) (E : engine) (url : jsstring) (init : fetch_init)
  : outcome response :=
  Returned (served E (snd (POST (arriving site init)))).

(* ================================================================== *)
(** ** app/page.tsx *)

Module Page.

Record state := {
  flow : jsstring;
  mermaidCode : jsstring;
  notes : jsstring;
  loading : bool;
  error : jsstring
}.

Definition MSG_PASTE : jsstring :=
  lit "Please paste or select a preset narrative first.".

(** The apostrophe of the source text is U+2019. *)
Definition MSG_NO_DIAGRAM : jsstring :=
  lit "The model didn" ++ [8217] ++ lit "t return a valid diagram. Try again.".

Definition MSG_WENT_WRONG : jsstring := lit "Something went wrong.".

Definition API_FLOW : jsstring := lit "/api/flow".

(** The second argument of [fetch]; [body] is the argument of
    [JSON.stringify]. *)
Definition api_request (flow : jsstring) : fetch_init :=
  {| method := lit "POST";
     headers := [(lit "Content-Type", lit "application/json")];
     body := VObj [(lit "flow", VStr flow)] |}.

(** [new Error(message)] *)
Definition Error (message : jsstring) : thrown :=
  ThrowError (lit "Error") message VUndefined.

(** The [try] block of [generate]: the diagram and the notes to show. *)
Definition attempt (net : jsstring -> fetch_init -> outcome response)
  (flow : jsstring) : js (jsstring * jsstring) :=
  if negb (truthy (VStr (trim flow)))
  then throw (Error MSG_PASTE)
  else
    r <- ([Fetch API_FLOW (api_request flow)],
          net API_FLOW (api_request flow)) ;;
    if negb (ok r)
    then
      t <- await (text r) ;;
      throw (Error t)
    else
      data <- await (json r) ;;
      let safe := nullish_coalesce data (VObj []) in
      let m := string_or_empty (get safe (lit "mermaid")) in
      let n := string_or_empty (get safe (lit "notes")) in
      if negb (startsWith m GRAMMAR_MARKER)
      then throw (Error MSG_NO_DIAGRAM)
      else ret (m, n).

(** [err instanceof Error ? err.message : "Something went wrong."] *)
Definition message_of (err : thrown) : jsstring :=
  match err with
  | ThrowError _ message _ => message
  | ThrowValue _ => MSG_WENT_WRONG
  end.

(** The state while the request is pending: the four setters that
    precede the [try]. *)
Definition pending (st : state) : state :=
  {| flow := flow st; mermaidCode := []; notes := []; loading := true;
     error := [] |}.

(** [generate]: the requests made and the state once it has settled. *)
Definition generate (net : jsstring -> fetch_init -> outcome response)
  (st : state) : list call * state :=
  let st1 := pending st in
  let (calls, result) := attempt net (flow st) in
  (calls,
   match result with
   | Returned (m, n) =>
       {| flow := flow st1; mermaidCode := m; notes := n; loading := false;
          error := error st1 |}
   | Threw err =>
       {| flow := flow st1; mermaidCode := mermaidCode st1;
          notes := notes st1; loading := false;
          error := cleanApiError (message_of err) |}
   end).

(** The Generate button: [disabled={loading || !flow.trim()}]. *)
Definition generate_disabled (st : state) : bool :=
  loading st || negb (truthy (VStr (trim (flow st)))).

Definition XML_PROLOG : jsstring :=
  jtext "<?xml version='1.0' standalone='no'?>" ++ [10].

(** [downloadSVG]: the text of the file, from the serialized element. *)
Definition svg_file (serialized : jsstring) : jsstring :=
  if negb (startsWith serialized (lit "<?xml"))
  then XML_PROLOG ++ serialized
  else serialized.

End Page.

(* ================================================================== *)
(** ** unnamed/part_000 *)

Module Part000.

(** [diagram], [notes] and [errorMsg] hold whatever the response
    carried. *)
Record state := {
  inputValue : jsstring;
  diagram : value;
  svg : jsstring;
  notes : value;
  loading : bool;
  errorMsg : value
}.

Definition MSG_NO_EXPLANATION : jsstring :=
  lit "No detailed explanation was returned for this flow.".

Definition MSG_NETWORK : jsstring := lit "Network error".

Definition api_request (inputValue : jsstring) : fetch_init :=
  {| method := lit "POST";
     headers := [(lit "Content-Type", lit "application/json")];
     body := VObj [(lit "flow", VStr inputValue)] |}.

(** ["API failed (" + res.status + ")"] *)
Definition api_failed (res : response) : jsstring :=
  lit "API failed (" ++ decimal (status res) ++ lit ")".

(** The message for a response that is not ok: the [error] of the body
    when the body is JSON and has a truthy one. *)
Definition failure_message (E : engine) (res : response) (raw : jsstring)
  : value :=
  match JSON_parse E (VStr raw) with
  | Some parsed =>
      if truthy (opt_get parsed (lit "error"))
      then get parsed (lit "error")
      else VStr (api_failed res)
  | None => VStr (api_failed res)
  end.

(** What the [try] block of [handleGenerate] decides to show. *)
Inductive shown :=
| Failure (msg : value)
| Result (diagram notes : value).

Definition attempt (E : engine)
  (net : jsstring -> fetch_init -> outcome response) (inputValue : jsstring)
  : js shown :=
  res <- ([Fetch (lit "/api/flow") (api_request inputValue)],
          net (lit "/api/flow") (api_request inputValue)) ;;
  raw <- await (text res) ;;
  if negb (ok res)
  then ret (Failure (failure_message E res raw))
  else
    data <- JSON_parse_or_throw E (VStr raw) ;;
    ret (Result (or_else (opt_get data (lit "mermaid")) (VStr []))
           (nullish_coalesce (opt_get data (lit "notes"))
              (VStr MSG_NO_EXPLANATION))).

(** [err?.message || "Network error"] *)
Definition message_of (err : thrown) : value :=
  match err with
  | ThrowError _ message _ => or_else (VStr message) (VStr MSG_NETWORK)
  | ThrowValue v => or_else (opt_get v (lit "message")) (VStr MSG_NETWORK)
  end.

(** [handleGenerate]: the requests made and the state once it has
    settled. *)
Definition handleGenerate (E : engine)
  (net : jsstring -> fetch_init -> outcome response) (st : state)
  : list call * state :=
  let (calls, result) := attempt E net (inputValue st) in
  (calls,
   match result with
   | Returned (Result d n) =>
       {| inputValue := inputValue st; diagram := d; svg := []; notes := n;
          loading := false; errorMsg := VStr [] |}
   | Returned (Failure msg) =>
       {| inputValue := inputValue st; diagram := VStr []; svg := [];
          notes := VStr []; loading := false; errorMsg := msg |}
   | Threw err =>
       {| inputValue := inputValue st; diagram := VStr []; svg := [];
          notes := VStr []; loading := false; errorMsg := message_of err |}
   end).

Definition is_line_terminator (c : N) : bool :=
  (c =? 10) || (c =? 13) || (c =? 8232) || (c =? 8233).

(** [s.replace(/^- /gm, empty)]: a hyphen and a space are removed where
    they start the text or follow a line terminator. *)
Fixpoint strip_bullets (at_line_start : bool) (s : jsstring) : jsstring :=
  match s with
  | [] => []
  | c :: rest =>
      match rest with
      | d :: rest' =>
          if at_line_start && (c =? 45) && (d =? 32)
          then strip_bullets false rest'
          else c :: strip_bullets (is_line_terminator c) rest
      | [] => [c]
      end
  end.

(** [s.replace(/\n/g, " ")] *)
Definition newlines_to_spaces (s : jsstring) : jsstring :=
  map (fun c => if c =? 10 then 32 else c) s.

(** [notes?.trim().replace(/^- /gm, empty).replace(/\n/g, " ")]; [None]
    is the TypeError of calling [trim] on a value that has none. *)
Definition explanation (notes : value) : option value :=
  match notes with
  | VUndefined | VNull => Some VUndefined
  | VStr s => Some (VStr (newlines_to_spaces (strip_bullets true (trim s))))
  | _ => None
  end.

End Part000.

(* ================================================================== *)
(** ** More vocabulary and sample worlds *)

(** A computation that calls nobody and, if it returns, returns a
    response with property [P]. *)
Definition settles (P : http_response -> Prop) (c : js http_response) : Prop :=
  fst c = [] /\ returns P c.

(** A 200 response whose diagram starts with the grammar marker. *)
Definition marked_diagram (r : http_response) : Prop :=
  exists mermaid notes,
    r = diagram mermaid notes /\ startsWith mermaid GRAMMAR_MARKER = true.

(** The narrative reaches part_001 and part_002: the key is set and the
    request is accepted. *)
Definition admitted (w : world) (f : jsstring) : Prop :=
  env_missing (OPENAI_API_KEY w) = false /\ accepted w f.

Definition with_key (key : option jsstring) (w : world) : world := {|
  js_engine := js_engine w;
  OPENAI_API_KEY := key;
  OPENAI_MODEL := OPENAI_MODEL w;
  req_json := req_json w;
  fetch := fetch w;
  create := create w
|}.

(** A completion whose content is the JSON text [null]. *)
Definition completion_of_null : jsstring :=
  jtext "{'choices':[{'message':{'role':'assistant','content':'null'}}]}".

(** What follows the upstream call, in each revision: no further call,
    and a marked diagram or a 500. *)
Definition after_call (r : http_response) : Prop :=
  marked_diagram r \/ status_code r = 500.

(** The three ways a request ends, [upstream f] being the one call made
    for the narrative [f] and [reaches f] the condition under which it is
    made. *)
Definition ends (POST : world -> list call * http_response)
  (reaches : world -> jsstring -> Prop) (upstream : world -> jsstring -> call)
  (w : world) : Prop :=
  POST w = ([], rejection) \/
  (exists r, POST w = ([], r) /\ status_code r = 500) \/
  (exists f r, reaches w f /\ POST w = ([upstream w f], r) /\ after_call r).

Definition RouteTs_call (w : world) (f : jsstring) : call :=
  Fetch OPENAI_URL (RouteTs.request_init w f).

Definition Part001_call (w : world) (f : jsstring) : call :=
  Fetch OPENAI_URL (Part001.request_init w f).

Definition Part002_call (w : world) (f : jsstring) : call :=
  Create (env_text (OPENAI_API_KEY w)) (Part002.params w (trim f)).

(** A computation that calls nobody and, if it returns, returns a value
    with property [P]. *)
Definition yields {A} (P : A -> Prop) (c : js A) : Prop :=
  fst c = [] /\
  match snd c with
  | Returned a => P a
  | Threw _ => True
  end.

(** An object all of whose values are strings. *)
Definition string_fields (l : list (jsstring * jsstring))
  : list (jsstring * value) :=
  map (fun p => (fst p, VStr (snd p))) l.

(** "key":"value" *)
Definition member_text (p : jsstring * jsstring) : jsstring :=
  QuoteJSONString (fst p) ++ lit ":" ++ QuoteJSONString (snd p).

(** What the page shows once [generate] has settled against a site that
    runs [POST]: the diagram and notes of a 200 answer, or, for any other
    answer, no diagram and one of the three fixed messages. *)
Definition shows_answer (POST : world -> list call * http_response)
  (site : world) (E : engine) (st : Page.state) : Prop :=
  let r := snd (POST (arriving site (Page.api_request (Page.flow st)))) in
  let st' := snd (Page.generate (site_fetch POST site E) st) in
  (exists mermaid notes,
     r = diagram mermaid notes /\
     st' = {| Page.flow := Page.flow st; Page.mermaidCode := mermaid;
              Page.notes := notes; Page.loading := false;
              Page.error := [] |})
  \/
  (status_code r <> 200 /\
   Page.mermaidCode st' = [] /\ Page.notes st' = [] /\
   (Page.error st' = MSG_QUOTA \/ Page.error st' = MSG_RENDER \/
    Page.error st' = MSG_UNEXPECTED)).

(** The page state in which only an error is shown. *)
Definition only_error (flow message : jsstring) : Page.state :=
  {| Page.flow := flow; Page.mermaidCode := []; Page.notes := [];
     Page.loading := false; Page.error := message |}.

(** A code unit that [JSON.stringify] writes as it is, wherever it
    stands. *)
Definition is_plain (c : N) : bool :=
  (32 <=? c) && negb (c =? 34) && negb (c =? 92)
  && negb (is_high_surrogate c) && negb (is_low_surrogate c).

(** What part_000 shows once [handleGenerate] has settled against a site
    that runs [POST]: the diagram and notes of a 200 answer, or the error
    message of any other answer, word for word ("API failed (status)" when
    that message is empty). *)
Definition shows_verbatim (POST : world -> list call * http_response)
  (site : world) (E : engine) (st : Part000.state) : Prop :=
  let r := snd (POST (arriving site
                        (Part000.api_request (Part000.inputValue st)))) in
  let st' := snd (Part000.handleGenerate E (site_fetch POST site E) st) in
  (exists mermaid notes,
     r = diagram mermaid notes /\
     Part000.diagram st' = VStr mermaid /\
     Part000.notes st' = VStr notes /\
     Part000.errorMsg st' = VStr [])
  \/
  (exists message,
     is_2xx (status_code r) = false /\ payload r = error_body message /\
     Part000.diagram st' = VStr [] /\
     Part000.notes st' = VStr [] /\
     Part000.errorMsg st'
     = VStr match message with
            | [] => Part000.api_failed (served E r)
            | _ :: _ => message
            end).

(** A list of lines as the prompt asks for the notes: a hyphen and a
    space before each line, a line feed between two lines. *)
Definition bullets (lines : list jsstring) : jsstring :=
  join [10] (map (fun line => lit "- " ++ line) lines).

(** A line of text: not empty, no line terminator in it, no white space
    at either end. *)
Definition is_line (line : jsstring) : Prop :=
  line <> [] /\ trim line = line /\
  forallb (fun c => negb (Part000.is_line_terminator c)) line = true.

(* ================================================================== *)
(** * Properties *)

(** ** Strings *)

Lemma jsstring_eqb_eq (a b : jsstring) : jsstring_eqb a b = true <-> a = b.
Proof.
  unfold jsstring_eqb. destruct (list_eq_dec N.eq_dec a b); split; congruence.
Qed.

Lemma startsWith_app (p s : jsstring) : startsWith (p ++ s) p = true.
Proof.
  induction p as [|c p IH]; simpl.
  - reflexivity.
  - now rewrite N.eqb_refl, IH.
Qed.

Lemma includes_app (a sub b : jsstring) : includes (a ++ sub ++ b) sub = true.
Proof.
  induction a as [|c a IH]; simpl.
  - destruct sub as [|x sub]; simpl.
    + destruct b; reflexivity.
    + now rewrite N.eqb_refl, startsWith_app.
  - rewrite IH. apply orb_true_r.
Qed.

Lemma includes_self_suffix (a sub : jsstring) : includes (a ++ sub) sub = true.
Proof.
  rewrite <- (app_nil_r sub) at 1. apply includes_app.
Qed.

(** ** JSON.parse: the fuel is enough *)

Lemma skip_ws_length (s : jsstring) :
  (List.length (skip_ws s) <= List.length s)%nat.
Proof.
  induction s as [|c s IH]; simpl; [lia|].
  destruct (is_json_ws c); simpl; lia.
Qed.

Lemma next_length (s : jsstring) (c : N) (rest : jsstring) :
  next s = Some (c, rest) -> (List.length rest < List.length s)%nat.
Proof.
  unfold next. pose proof (skip_ws_length s) as H.
  destruct (skip_ws s) as [|c' rest']; [discriminate|].
  intros [= <- <-]. simpl in H. lia.
Qed.

Lemma parse_string_body_length (n : nat) :
  forall s acc k rest,
    (List.length s <= n)%nat ->
    parse_string_body s acc = Some (k, rest) ->
    (List.length rest < List.length s)%nat.
Proof.
  induction n as [|n IH]; intros s acc k rest Hn H.
  - destruct s; [discriminate | simpl in Hn; lia].
  - destruct s as [|c s]; [discriminate|]. simpl in H, Hn.
    destruct (c =? 34).
    + injection H as <- <-. simpl. lia.
    + destruct (c =? 92).
      * destruct s as [|e s1]; [discriminate|].
        destruct (e =? 117).
        -- destruct s1 as [|h1 [|h2 [|h3 [|h4 s2]]]]; try discriminate.
           destruct (hex4 h1 h2 h3 h4); [|discriminate].
           apply IH in H; simpl in *; lia.
        -- destruct (escape e); [|discriminate].
           apply IH in H; simpl in *; lia.
      * destruct (c <? 32); [discriminate|].
        apply IH in H; simpl in *; lia.
Qed.

Lemma span_digits_split (s : jsstring) :
  s = fst (span_digits s) ++ snd (span_digits s).
Proof.
  induction s as [|c s IH]; simpl; [reflexivity|].
  destruct (is_digit c); [|reflexivity].
  destruct (span_digits s) as [d r]. simpl in *. now f_equal.
Qed.

Lemma digits1_split (s l r : jsstring) : digits1 s = Some (l, r) -> s = l ++ r.
Proof.
  unfold digits1. pose proof (span_digits_split s) as H.
  destruct (span_digits s) as [[|c d] r']; [discriminate|].
  now intros [= <- <-].
Qed.

Lemma optional_split (p : N -> bool) (s : jsstring) :
  s = fst (optional p s) ++ snd (optional p s).
Proof. destruct s as [|c s]; simpl; [|destruct (p c)]; reflexivity. Qed.

Lemma scan_int_split (s l r : jsstring) : scan_int s = Some (l, r) -> s = l ++ r.
Proof.
  destruct s as [|c s]; simpl; [discriminate|].
  destruct (c =? 48).
  - now intros [= <- <-].
  - apply digits1_split.
Qed.

Lemma scan_frac_split (s l r : jsstring) : scan_frac s = Some (l, r) -> s = l ++ r.
Proof.
  destruct s as [|c s]; simpl; [now intros [= <- <-]|].
  destruct (c =? 46).
  - destruct (digits1 s) as [[d r']|] eqn:Hd; [|discriminate].
    intros [= <- <-]. simpl. f_equal. now apply digits1_split.
  - now intros [= <- <-].
Qed.

Lemma scan_exp_split (s l r : jsstring) : scan_exp s = Some (l, r) -> s = l ++ r.
Proof.
  destruct s as [|e s]; simpl; [now intros [= <- <-]|].
  destruct ((e =? 101) || (e =? 69)).
  - pose proof (optional_split (fun c => (c =? 43) || (c =? 45)) s) as Ho.
    destruct (optional _ s) as [sign r1]. simpl in Ho.
    destruct (digits1 r1) as [[d r2]|] eqn:Hd; [|discriminate].
    intros [= <- <-]. simpl. f_equal. rewrite <- app_assoc.
    apply digits1_split in Hd. congruence.
  - now intros [= <- <-].
Qed.

(** The literal that [scan_number] returns is a prefix of its input. *)
Lemma scan_number_split (s l r : jsstring) :
  scan_number s = Some (l, r) -> s = l ++ r.
Proof.
  unfold scan_number.
  pose proof (optional_split (fun c => c =? 45) s) as Ho.
  destruct (optional _ s) as [sign s1]. simpl in Ho.
  destruct (scan_int s1) as [[int s2]|] eqn:Hi; [|discriminate].
  destruct (scan_frac s2) as [[frac s3]|] eqn:Hf; [|discriminate].
  destruct (scan_exp s3) as [[ex s4]|] eqn:He; [|discriminate].
  intros [= <- <-].
  apply scan_int_split in Hi. apply scan_frac_split in Hf.
  apply scan_exp_split in He. subst. now rewrite <- !app_assoc.
Qed.

Lemma scan_number_length (s l r : jsstring) :
  scan_number s = Some (l, r) -> (List.length r <= List.length s)%nat.
Proof.
  intros H. apply scan_number_split in H. subst. rewrite length_app. lia.
Qed.

Lemma skipn_length_le {A} (n : nat) (l : list A) :
  (List.length (skipn n l) <= List.length l)%nat.
Proof. rewrite length_skipn. lia. Qed.

Section Fuel.
Variable E : engine.

Ltac break H :=
  repeat match type of H with
         | context [match ?x with _ => _ end] =>
             destruct x eqn:?; try discriminate H
         end.

Ltac lengths :=
  repeat match goal with
         | H : next _ = Some _ |- _ => apply next_length in H
         | H : parse_string_body _ _ = Some _ |- _ =>
             apply (parse_string_body_length _ _ _ _ _ (le_n _)) in H
         | H : scan_number _ = Some _ |- _ => apply scan_number_length in H
         end.

Ltac replay :=
  repeat match goal with
         | H : ?x = _ |- context [?x] => rewrite H
         end.

(** A successful run returns no more than it was given, and succeeds in
    the same way with any larger amount of fuel. *)
Lemma fuel_settled (n : nat) :
  (forall s v rest,
     parse_value E n s = Some (v, rest) ->
     (List.length rest <= List.length s)%nat /\
     forall m, (2 * List.length s + 1 <= m)%nat ->
               parse_value E m s = Some (v, rest))
  /\
  (forall s acc v rest,
     parse_elements E n s acc = Some (v, rest) ->
     (List.length rest <= List.length s)%nat /\
     forall m, (2 * List.length s + 2 <= m)%nat ->
               parse_elements E m s acc = Some (v, rest))
  /\
  (forall s acc v rest,
     parse_members E n s acc = Some (v, rest) ->
     (List.length rest <= List.length s)%nat /\
     forall m, (2 * List.length s + 2 <= m)%nat ->
               parse_members E m s acc = Some (v, rest)).
Proof.
  induction n as [|n (IHv & IHe & IHm)].
  - repeat split; discriminate.
  - split; [|split].
    + intros s v rest H. simpl in H. break H.
      all: try (injection H as <- <-).
      all: try (apply IHm in H; destruct H as [Hlen Hmore]).
      all: try (apply IHe in H; destruct H as [Hlen Hmore]).
      all: split;
        [ try (pose proof (skipn_length_le 4 s));
          try (pose proof (skipn_length_le 5 s));
          lengths; simpl in *; lia | ].
      all: intros [|m] Hm; [lia|]; simpl; replay; try reflexivity.
      all: apply Hmore; lengths; lia.
    + intros s acc v rest H. simpl in H.
      destruct (parse_value E n s) as [[v1 rest1]|] eqn:Hv; [|discriminate].
      destruct (IHv _ _ _ Hv) as [Hlen1 Hmore1].
      break H.
      all: try (injection H as <- <-).
      all: try (apply IHe in H; destruct H as [Hlen Hmore]).
      all: split; [lengths; lia|].
      all: intros [|m] Hm; [lia|]; simpl.
      all: rewrite Hmore1 by lia; replay; try reflexivity.
      all: apply Hmore; lengths; lia.
    + intros s acc v rest H. simpl in H. break H.
      all: match goal with
           | Hv : parse_value E _ _ = Some _ |- _ =>
               destruct (IHv _ _ _ Hv) as [Hlen1 Hmore1]
           end.
      all: try (injection H as <- <-).
      all: try (apply IHm in H; destruct H as [Hlen Hmore]).
      all: split; [lengths; lia|].
      all: intros [|m] Hm; [lia|]; simpl; replay.
      all: rewrite Hmore1 by (lengths; lia); replay; try reflexivity.
      all: apply Hmore; lengths; lia.
Qed.

(** If some amount of fuel parses [s], then [enough_fuel s] does, with the
    same result. *)
Lemma enough_fuel_is_enough (n : nat) (s : jsstring) (v : value)
  (rest : jsstring) :
  parse_value E n s = Some (v, rest) ->
  parse_value E (enough_fuel s) s = Some (v, rest).
Proof.
  intros H. destruct (fuel_settled n) as (Hv & _ & _).
  apply (Hv _ _ _ H). unfold enough_fuel. lia.
Qed.

(** [parse_text] does not depend on the amount of fuel it chose: a text
    that parses with any fuel parses, and a text that [parse_text] refuses
    is refused with every fuel. *)
Lemma parse_text_complete (n : nat) (s : jsstring) (v : value)
  (rest : jsstring) :
  parse_value E n s = Some (v, rest) ->
  skip_ws rest = [] ->
  parse_text E s = Some v.
Proof.
  intros H Hrest. unfold parse_text.
  now rewrite (enough_fuel_is_enough n s v rest H), Hrest.
Qed.

Lemma parse_text_refuses (s : jsstring) :
  parse_text E s = None ->
  forall n, match parse_value E n s with
            | Some (_, rest) => skip_ws rest <> []
            | None => True
            end.
Proof.
  intros Hnone n.
  destruct (parse_value E n s) as [[v rest]|] eqn:H; [|exact I].
  intros Hrest. now rewrite (parse_text_complete n s v rest H Hrest) in Hnone.
Qed.
End Fuel.

(** What [JSON.parse] accepts and refuses, on a few texts. *)
Example parse_nested :
  parse_text v8 (jtext " { 'a' : [ 1 , true , null , { } ] , 'b' : 'c\u0041\n' } ")
  = Some (VObj [ (lit "a", VArr [ VNum (StringToNumber v8 (lit "1"));
                                  VBool true; VNull; VObj [] ]);
                 (lit "b", VStr (lit "cA" ++ [10])) ]).
Proof. reflexivity. Qed.

Example parse_repeated_key :
  parse_text v8 (jtext "{'notes':1,'mermaid':'x','notes':'y'}")
  = Some (VObj [(lit "notes", VStr (lit "y")); (lit "mermaid", VStr (lit "x"))]).
Proof. reflexivity. Qed.

Example parse_refusals :
  map (parse_text v8)
    [ []; lit "oops"; lit "[object Object]"; lit "[1,]"; jtext "{'a':1,}";
      jtext "{'a' 1}"; lit "01"; lit "1."; lit "-"; lit "1e"; lit "nul";
      lit "truex"; jtext "'abc"; jtext "'\q'"; jtext "'\u12G4'"; lit "1 2";
      jtext "{'mermaid':'sequenceDiagram" ]
  = repeat None 17.
Proof. reflexivity. Qed.

(** ** The validation guard *)

(** The guard of the source, [!flow || typeof flow !== "string" ||
    flow.trim().length < 10], is the specification's condition. *)
Lemma guard_flow_unusable (flow : value) :
  negb (truthy flow) || negb (is_string flow) || trimmed_length_below_10 flow
  = flow_unusable flow.
Proof.
  destruct flow as [| |[|]|n|[|c s]|l|o]; simpl; try reflexivity;
    now rewrite orb_true_r.
Qed.

(** ** Running a handler *)

Lemma bind_returned {A B} (a : A) (k : A -> js B) :
  bind ([], Returned a) k = k a.
Proof. unfold bind. now destruct (k a). Qed.

Lemma bind_threw {A B} (calls : list call) (e : thrown) (k : A -> js B) :
  bind (calls, Threw e) k = (calls, Threw e).
Proof. reflexivity. Qed.

(** A [try] block that starts with an upstream call. *)
Lemma try_catch_called {A} (calls : list call) (a : A)
  (k : A -> js http_response) (h : thrown -> http_response) :
  try_catch (bind (calls, Returned a) k) h
  = (calls ++ fst (try_catch (k a) h), snd (try_catch (k a) h)).
Proof. unfold bind, try_catch. now destruct (k a) as [calls' [r|e]]. Qed.

Ltac run :=
  unfold await, ret, throw, member, destructure, JSON_parse_or_throw,
    call_fetch, call_create;
  repeat first [ rewrite bind_returned | rewrite bind_threw ];
  cbn [try_catch fst snd].

(** The validation step of part_002, [typeof body.flow === "string" ?
    body.flow.trim() : empty] followed by [flow.length < 10], decides the same
    condition. *)
Lemma part_002_guard_flow_unusable (flow : value) :
  (N.of_nat (List.length match flow with VStr s => trim s | _ => [] end) <? 10)
  = flow_unusable flow.
Proof. destruct flow; reflexivity. Qed.

Lemma RouteTs_rejects (w : world) (request : value) :
  req_json w = Returned request ->
  is_nullish request = false ->
  flow_unusable (get request (lit "flow")) = true ->
  RouteTs.POST w = ([], rejection).
Proof.
  intros Hreq Hnn Hflow.
  unfold RouteTs.POST, RouteTs.handler.
  rewrite Hreq. run. rewrite Hnn. run.
  now rewrite guard_flow_unusable, Hflow.
Qed.

Lemma Part001_rejects (w : world) :
  env_missing (OPENAI_API_KEY w) = false ->
  is_nullish (Part001.request_or_empty w) = false ->
  flow_unusable (get (Part001.request_or_empty w) (lit "flow")) = true ->
  Part001.POST w = ([], rejection).
Proof.
  intros Hkey Hnn Hflow.
  unfold Part001.POST, Part001.handler.
  rewrite Hkey. run. rewrite Hnn. run.
  now rewrite guard_flow_unusable, Hflow.
Qed.

Lemma Part002_rejects (w : world) :
  env_missing (OPENAI_API_KEY w) = false ->
  is_nullish (Part002.request_or_empty w) = false ->
  flow_unusable (get (Part002.request_or_empty w) (lit "flow")) = true ->
  Part002.POST w = ([], rejection).
Proof.
  intros Hkey Hnn Hflow.
  unfold Part002.POST, Part002.handler.
  rewrite Hkey. run. rewrite Hnn. run.
  now rewrite part_002_guard_flow_unusable, Hflow.
Qed.

(** In part_001 and part_002 a request body that is not JSON at all counts
    as an empty object, hence as a request without [flow]. *)
Lemma unreadable_request_rejected (w : world) (e : thrown) :
  req_json w = Threw e ->
  env_missing (OPENAI_API_KEY w) = false ->
  Part001.POST w = ([], rejection) /\ Part002.POST w = ([], rejection).
Proof.
  intros Hreq Hkey. split.
  - apply Part001_rejects; trivial;
      unfold Part001.request_or_empty; now rewrite Hreq.
  - apply Part002_rejects; trivial;
      unfold Part002.request_or_empty; now rewrite Hreq.
Qed.

(** C1, as amended.  For every request whose body is a JSON value other
    than [null] and whose [flow] field is absent, not a string, or shorter
    than 10 code units once trimmed, route.ts answers HTTP 400 with the
    validation message without calling the upstream service (the list of
    calls is empty, whatever [fetch] and [create] would have answered);
    part_001 and part_002 do the same once their API-key check has passed. *)
Theorem C1_unusable_narrative_rejected (w : world) (request : value) :
  req_json w = Returned request ->
  is_nullish request = false ->
  flow_unusable (get request (lit "flow")) = true ->
  RouteTs.POST w = ([], rejection) /\
  (env_missing (OPENAI_API_KEY w) = false ->
   Part001.POST w = ([], rejection) /\ Part002.POST w = ([], rejection)).
Proof.
  intros Hreq Hnn Hflow. split.
  - now apply RouteTs_rejects with request.
  - intros Hkey. split.
    + apply Part001_rejects; trivial;
        unfold Part001.request_or_empty; now rewrite Hreq.
    + apply Part002_rejects; trivial;
        unfold Part002.request_or_empty; now rewrite Hreq.
Qed.

(** The end-to-end scenario of the specification: a narrative of length 9. *)
Lemma C1_unusable_narrative_rejected_witness :
  RouteTs.POST (with_request (Returned (flow_request nine)) no_upstream)
  = ([], rejection) /\
  Part002.POST (with_request (Returned (flow_request nine)) no_upstream)
  = ([], rejection).
Proof.
  destruct (C1_unusable_narrative_rejected
              (with_request (Returned (flow_request nine)) no_upstream)
              (flow_request nine)) as [H1 H2];
    [reflexivity | reflexivity | reflexivity |].
  split; [exact H1 | apply H2; reflexivity].
Defined.

(** C1 as stated fails: with [OPENAI_API_KEY] unset, part_002 answers the
    nine-character narrative with HTTP 500, not 400. *)
Lemma C1_counterexample_missing_key :
  let w := without_key (with_request (Returned (flow_request nine)) no_upstream) in
  req_json w = Returned (flow_request nine) /\
  flow_unusable (get (flow_request nine) (lit "flow")) = true /\
  Part002.POST w = ([], server_error Part002.MSG_MISSING_KEY) /\
  status_code (snd (Part002.POST w)) <> 400.
Proof.
  repeat split; try reflexivity. vm_compute. discriminate.
Qed.

(** ** After validation *)

Lemma accepted_flow_unusable (f : jsstring) :
  flow_unusable (VStr f) = false ->
  negb (truthy (VStr f)) || negb (is_string (VStr f))
  || trimmed_length_below_10 (VStr f) = false.
Proof. intros H. now rewrite guard_flow_unusable. Qed.

Lemma accepted_trimmed (f : jsstring) :
  flow_unusable (VStr f) = false ->
  (N.of_nat (List.length (trim f)) <? 10) = false.
Proof. trivial. Qed.

(** Entering a handler whose request is accepted: what is left is the
    upstream call followed by the rest of the handler. *)
Ltac enter_handler Hacc :=
  let request := fresh "request" in
  let Hreq := fresh "Hreq" in
  let Hnn := fresh "Hnn" in
  let Hflow := fresh "Hflow" in
  let Hlen := fresh "Hlen" in
  destruct Hacc as (request & Hreq & Hnn & Hflow & Hlen);
  unfold RouteTs.handler, Part001.handler, Part002.handler,
    Part001.request_or_empty, Part002.request_or_empty;
  rewrite ?Hreq; run; rewrite ?Hnn; run;
  rewrite Hflow, ?(accepted_flow_unusable _ Hlen), ?(accepted_trimmed _ Hlen);
  cbn [string_or_empty].

Ltac enter_RouteTs Hacc := unfold RouteTs.POST; enter_handler Hacc.

Ltac enter_Part001 Hkey Hacc :=
  unfold Part001.POST, Part001.handler; rewrite Hkey; enter_handler Hacc.

Ltac enter_Part002 Hkey Hacc :=
  unfold Part002.POST, Part002.handler; rewrite Hkey; enter_handler Hacc.

Lemma RouteTs_settles (w : world) (f : jsstring) (data parsed : value) :
  accepted w f ->
  delivers w (RouteTs.request_init w f) data ->
  JSON_parse (js_engine w) (content_of data) = Some parsed ->
  is_nullish parsed = false ->
  RouteTs.POST w
  = ([Fetch OPENAI_URL (RouteTs.request_init w f)],
     settle MSG_INVALID_MERMAID_RETRY parsed).
Proof.
  intros Hacc (resp & Hfetch & Hok & Hjson) Hparse Hnn.
  enter_RouteTs Hacc. rewrite Hfetch, try_catch_called, Hok. cbn [negb].
  rewrite Hjson. run. rewrite Hparse. run. rewrite Hnn. run.
  unfold settle, text_field, string_or_empty.
  now destruct (startsWith _ GRAMMAR_MARKER).
Qed.

Lemma Part001_settles (w : world) (f : jsstring) (data parsed : value) :
  env_missing (OPENAI_API_KEY w) = false ->
  accepted w f ->
  delivers w (Part001.request_init w f) data ->
  JSON_parse (js_engine w) (content_of data) = Some parsed ->
  is_nullish parsed = false ->
  Part001.POST w
  = ([Fetch OPENAI_URL (Part001.request_init w f)],
     settle MSG_INVALID_MERMAID_RETRY parsed).
Proof.
  intros Hkey Hacc (resp & Hfetch & Hok & Hjson) Hparse Hnn.
  enter_Part001 Hkey Hacc. rewrite Hfetch, try_catch_called, Hok. cbn [negb].
  rewrite Hjson. run. rewrite Hparse. run. rewrite Hnn. run.
  unfold settle, text_field, string_or_empty.
  now destruct (startsWith _ GRAMMAR_MARKER).
Qed.

Lemma Part002_settles (w : world) (f : jsstring) (resp parsed : value) :
  env_missing (OPENAI_API_KEY w) = false ->
  accepted w f ->
  create w (env_text (OPENAI_API_KEY w)) (Part002.params w (trim f))
  = Returned resp ->
  JSON_parse (js_engine w) (content_of resp) = Some parsed ->
  is_nullish parsed = false ->
  Part002.POST w
  = ([Create (env_text (OPENAI_API_KEY w)) (Part002.params w (trim f))],
     settle MSG_INVALID_MERMAID parsed).
Proof.
  intros Hkey Hacc Hcreate Hparse Hnn.
  enter_Part002 Hkey Hacc. rewrite Hcreate, try_catch_called, Hparse.
  run. rewrite Hnn. run.
  unfold settle, text_field, string_or_empty.
  now destruct (startsWith _ GRAMMAR_MARKER).
Qed.

(** ** A well-formed result *)

Lemma get_string_not_nullish (v : value) (k s : jsstring) :
  get v k = VStr s -> is_nullish v = false.
Proof. destruct v; simpl; trivial; discriminate. Qed.

(** C2.  When the parsed upstream JSON has a string [mermaid] that starts
    with "sequenceDiagram" and a string [notes], route.ts makes its one
    call and answers HTTP 200 with a body of two fields, [mermaid] and
    [notes], that hold exactly these two values. *)
Theorem C2_valid_result_echoed (w : world) (f : jsstring)
  (data parsed : value) (mermaid notes : jsstring) :
  accepted w f ->
  delivers w (RouteTs.request_init w f) data ->
  JSON_parse (js_engine w) (content_of data) = Some parsed ->
  get parsed (lit "mermaid") = VStr mermaid ->
  startsWith mermaid (lit "sequenceDiagram") = true ->
  get parsed (lit "notes") = VStr notes ->
  RouteTs.POST w
  = ([Fetch OPENAI_URL (RouteTs.request_init w f)],
     {| status_code := 200;
        payload := VObj [ (lit "mermaid", VStr mermaid);
                          (lit "notes", VStr notes) ] |}).
Proof.
  intros Hacc Hup Hparse Hm Hstart Hn.
  change (lit "sequenceDiagram") with GRAMMAR_MARKER in Hstart.
  rewrite (RouteTs_settles w f data parsed Hacc Hup Hparse
             (get_string_not_nullish _ _ _ Hm)).
  unfold settle, text_field. now rewrite Hm, Hn, Hstart.
Qed.

(** The same holds of the two other revisions. *)
Lemma valid_result_echoed_by_siblings (w : world) (f : jsstring)
  (parsed : value) (mermaid notes : jsstring) :
  env_missing (OPENAI_API_KEY w) = false ->
  accepted w f ->
  get parsed (lit "mermaid") = VStr mermaid ->
  startsWith mermaid GRAMMAR_MARKER = true ->
  get parsed (lit "notes") = VStr notes ->
  (forall data,
     delivers w (Part001.request_init w f) data ->
     JSON_parse (js_engine w) (content_of data) = Some parsed ->
     Part001.POST w
     = ([Fetch OPENAI_URL (Part001.request_init w f)], diagram mermaid notes))
  /\
  (forall resp,
     create w (env_text (OPENAI_API_KEY w)) (Part002.params w (trim f))
     = Returned resp ->
     JSON_parse (js_engine w) (content_of resp) = Some parsed ->
     Part002.POST w
     = ([Create (env_text (OPENAI_API_KEY w)) (Part002.params w (trim f))],
        diagram mermaid notes)).
Proof.
  intros Hkey Hacc Hm Hstart Hn.
  pose proof (get_string_not_nullish _ _ _ Hm) as Hnn.
  split.
  - intros data Hup Hparse.
    rewrite (Part001_settles w f data parsed Hkey Hacc Hup Hparse Hnn).
    unfold settle, text_field. now rewrite Hm, Hn, Hstart.
  - intros resp Hcreate Hparse.
    rewrite (Part002_settles w f resp parsed Hkey Hacc Hcreate Hparse Hnn).
    unfold settle, text_field. now rewrite Hm, Hn, Hstart.
Qed.

(** The end-to-end scenario of the specification: the diagram and the notes
    come back verbatim. *)
Lemma C2_valid_result_echoed_witness :
  RouteTs.POST (service 200 completion_of_diagram)
  = ([Fetch OPENAI_URL (RouteTs.request_init (service 200 completion_of_diagram) narrative)],
     {| status_code := 200;
        payload :=
          VObj [ (lit "mermaid",
                  VStr (lit "sequenceDiagram" ++ [10]
                        ++ lit "Customer->>Merchant: pay"));
                 (lit "notes", VStr (lit "- a" ++ [10] ++ lit "- b")) ] |}).
Proof.
  eapply (C2_valid_result_echoed (service 200 completion_of_diagram) narrative).
  - exists (flow_request narrative). repeat split.
  - eexists. repeat split.
  - vm_compute. reflexivity.
  - reflexivity.
  - reflexivity.
  - reflexivity.
Defined.

(** ** A result without the grammar marker *)

(** C3, as amended.  When the diagram text extracted from the parsed
    upstream JSON does not start with the exact prefix "sequenceDiagram",
    the endpoint answers HTTP 500 with a body that holds nothing but the
    invalid-Mermaid message of the revision, whatever [notes] holds: the
    retry message "Model did not return valid Mermaid. Try again." in
    route.ts and part_001, and "Model did not return valid Mermaid.",
    without the retry hint, in part_002. *)
Theorem C3_unmarked_diagram_refused (w : world) (f : jsstring) (parsed : value) :
  accepted w f ->
  is_nullish parsed = false ->
  startsWith (text_field parsed (lit "mermaid")) (lit "sequenceDiagram") = false ->
  (forall data,
     delivers w (RouteTs.request_init w f) data ->
     JSON_parse (js_engine w) (content_of data) = Some parsed ->
     RouteTs.POST w
     = ([Fetch OPENAI_URL (RouteTs.request_init w f)],
        {| status_code := 500;
           payload :=
             VObj [ (lit "error",
                     VStr (lit "Model did not return valid Mermaid. Try again.")) ] |}))
  /\
  (env_missing (OPENAI_API_KEY w) = false ->
   (forall data,
      delivers w (Part001.request_init w f) data ->
      JSON_parse (js_engine w) (content_of data) = Some parsed ->
      Part001.POST w
      = ([Fetch OPENAI_URL (Part001.request_init w f)],
         {| status_code := 500;
            payload :=
              VObj [ (lit "error",
                      VStr (lit "Model did not return valid Mermaid. Try again.")) ] |}))
   /\
   (forall resp,
      create w (env_text (OPENAI_API_KEY w)) (Part002.params w (trim f))
      = Returned resp ->
      JSON_parse (js_engine w) (content_of resp) = Some parsed ->
      Part002.POST w
      = ([Create (env_text (OPENAI_API_KEY w)) (Part002.params w (trim f))],
         {| status_code := 500;
            payload :=
              VObj [ (lit "error",
                      VStr (lit "Model did not return valid Mermaid.")) ] |}))).
Proof.
  intros Hacc Hnn Hstart.
  change (lit "sequenceDiagram") with GRAMMAR_MARKER in Hstart.
  split; [|intros Hkey; split].
  - intros data Hup Hparse.
    rewrite (RouteTs_settles w f data parsed Hacc Hup Hparse Hnn).
    unfold settle. now rewrite Hstart.
  - intros data Hup Hparse.
    rewrite (Part001_settles w f data parsed Hkey Hacc Hup Hparse Hnn).
    unfold settle. now rewrite Hstart.
  - intros resp Hcreate Hparse.
    rewrite (Part002_settles w f resp parsed Hkey Hacc Hcreate Hparse Hnn).
    unfold settle. now rewrite Hstart.
Qed.

(** A diagram with one space before the marker and well-formed notes is
    refused by route.ts with the retry message and by part_002 with its
    own message. *)
Lemma C3_unmarked_diagram_refused_witness :
  RouteTs.POST (service 200 completion_of_indented_diagram)
  = ([Fetch OPENAI_URL
        (RouteTs.request_init (service 200 completion_of_indented_diagram)
           narrative)],
     {| status_code := 500;
        payload :=
          VObj [ (lit "error",
                  VStr (lit "Model did not return valid Mermaid. Try again.")) ] |})
  /\
  snd (Part002.POST (service 200 completion_of_indented_diagram))
  = {| status_code := 500;
       payload :=
         VObj [ (lit "error",
                 VStr (lit "Model did not return valid Mermaid.")) ] |}.
Proof.
  destruct (C3_unmarked_diagram_refused
              (service 200 completion_of_indented_diagram) narrative
              (VObj [ (lit "mermaid",
                       VStr (lit " sequenceDiagram" ++ [10]
                             ++ lit "Customer->>Merchant: pay"));
                      (lit "notes", VStr (lit "- a")) ]))
    as [Hts Hsiblings].
  - exists (flow_request narrative). repeat split.
  - reflexivity.
  - reflexivity.
  - split.
    + eapply Hts.
      * eexists. repeat split.
      * vm_compute. reflexivity.
    + destruct Hsiblings as [_ H002]; [reflexivity|].
      erewrite H002; [reflexivity | reflexivity | vm_compute; reflexivity].
Defined.

(** C3 as stated fails on part_002: for the same indented diagram, with
    well-formed notes, its error is "Model did not return valid Mermaid.",
    which is not the retry message of route.ts and has no retry hint. *)
Lemma C3_counterexample_part_002 :
  let w := service 200 completion_of_indented_diagram in
  let parsed :=
    VObj [ (lit "mermaid",
            VStr (lit " sequenceDiagram" ++ [10]
                  ++ lit "Customer->>Merchant: pay"));
           (lit "notes", VStr (lit "- a")) ] in
  JSON_parse (js_engine w)
    (content_of (json_of completion_of_indented_diagram)) = Some parsed /\
  startsWith (text_field parsed (lit "mermaid")) (lit "sequenceDiagram")
  = false /\
  status_code (snd (Part002.POST w)) = 500 /\
  get (payload (snd (Part002.POST w))) (lit "error")
  = VStr (lit "Model did not return valid Mermaid.") /\
  get (payload (snd (Part002.POST w))) (lit "error")
  <> VStr (lit "Model did not return valid Mermaid. Try again.") /\
  includes (lit "Model did not return valid Mermaid.") (lit "Try again")
  = false.
Proof.
  repeat split; try reflexivity. vm_compute. discriminate.
Qed.

(** The end-to-end scenario of the specification: a flowchart instead of a
    sequence diagram. *)
Example wrong_grammar_refused :
  snd (RouteTs.POST (service 200 completion_of_flowchart))
  = server_error MSG_INVALID_MERMAID_RETRY.
Proof. reflexivity. Qed.

(** ** Defaulting of the two fields *)

(** C7.  For every parsed upstream JSON other than [null], route.ts
    replaces each of [mermaid] and [notes] that is missing or not a string
    by the empty string, and only then checks the marker; so when [mermaid]
    passes the check, a [notes] that is not a string comes back as the empty
    string with HTTP 200. *)
Theorem C7_fields_default_to_empty (w : world) (f : jsstring)
  (data parsed : value) :
  accepted w f ->
  delivers w (RouteTs.request_init w f) data ->
  JSON_parse (js_engine w) (content_of data) = Some parsed ->
  is_nullish parsed = false ->
  let mermaid := match get parsed (lit "mermaid") with
                 | VStr s => s
                 | _ => []
                 end in
  let notes := match get parsed (lit "notes") with
               | VStr s => s
               | _ => []
               end in
  RouteTs.POST w
  = ([Fetch OPENAI_URL (RouteTs.request_init w f)],
     if startsWith mermaid GRAMMAR_MARKER
     then diagram mermaid notes
     else server_error MSG_INVALID_MERMAID_RETRY)
  /\
  (is_string (get parsed (lit "notes")) = false ->
   startsWith mermaid GRAMMAR_MARKER = true ->
   snd (RouteTs.POST w) = diagram mermaid []).
Proof.
  intros Hacc Hup Hparse Hnn mermaid notes.
  rewrite (RouteTs_settles w f data parsed Hacc Hup Hparse Hnn).
  subst mermaid notes. unfold settle, text_field. split; [reflexivity|].
  intros Hnotes Hstart. cbn [snd].
  match goal with
  | |- (if ?b then _ else _) = _ =>
      replace b with true by (symmetry; exact Hstart)
  end.
  now destruct (get parsed (lit "notes")).
Qed.

(** A numeric [notes] next to a valid diagram: HTTP 200, empty notes. *)
Lemma C7_fields_default_to_empty_witness :
  snd (RouteTs.POST (service 200 completion_of_numeric_notes))
  = diagram (lit "sequenceDiagram" ++ [10] ++ lit "Customer->>Merchant: pay") [].
Proof.
  edestruct (C7_fields_default_to_empty
               (service 200 completion_of_numeric_notes) narrative)
    as [_ Hnotes].
  - exists (flow_request narrative). repeat split.
  - eexists. repeat split.
  - vm_compute. reflexivity.
  - reflexivity.
  - apply Hnotes; reflexivity.
Defined.

(** ** A completion without content *)

(** "{}" is the empty object, whatever the engine. *)
Lemma parse_empty_object (E : engine) :
  JSON_parse E (VStr (lit "{}")) = Some (VObj []).
Proof. reflexivity. Qed.

Lemma content_of_absent (x : value) :
  is_nullish (message_content x) = true -> content_of x = VStr (lit "{}").
Proof. unfold content_of, nullish_coalesce. now intros ->. Qed.

(** C10, as amended.  When [choices[0].message.content] of a 2xx upstream
    answer is [null] or [undefined] (some link of the optional chain is
    missing), the endpoint substitutes the text "{}", which parses as the
    empty object; both fields default to the empty string, the marker check
    fails, and the answer is the HTTP 500 invalid-Mermaid error of the
    revision, neither the invalid-JSON error nor an exception's message. *)
Theorem C10_absent_content_is_invalid_mermaid (w : world) (f : jsstring)
  (data : value) :
  accepted w f ->
  is_nullish (message_content data) = true ->
  (content_of data = VStr (lit "{}") /\
   JSON_parse (js_engine w) (content_of data) = Some (VObj []))
  /\
  (delivers w (RouteTs.request_init w f) data ->
   RouteTs.POST w
   = ([Fetch OPENAI_URL (RouteTs.request_init w f)],
      server_error MSG_INVALID_MERMAID_RETRY))
  /\
  (env_missing (OPENAI_API_KEY w) = false ->
   create w (env_text (OPENAI_API_KEY w)) (Part002.params w (trim f))
   = Returned data ->
   Part002.POST w
   = ([Create (env_text (OPENAI_API_KEY w)) (Part002.params w (trim f))],
      server_error MSG_INVALID_MERMAID)).
Proof.
  intros Hacc Habsent.
  pose proof (content_of_absent data Habsent) as Hcontent.
  assert (Hparse : JSON_parse (js_engine w) (content_of data) = Some (VObj []))
    by (rewrite Hcontent; apply parse_empty_object).
  repeat split; trivial.
  - intros Hup.
    now rewrite (RouteTs_settles w f data (VObj []) Hacc Hup Hparse eq_refl).
  - intros Hkey Hcreate.
    now rewrite (Part002_settles w f data (VObj []) Hkey Hacc Hcreate Hparse
                   eq_refl).
Qed.

(** A completion whose content is [null]. *)
Lemma C10_absent_content_is_invalid_mermaid_witness :
  snd (RouteTs.POST (service 200 completion_without_content))
  = server_error MSG_INVALID_MERMAID_RETRY
  /\
  snd (Part002.POST (service 200 completion_without_content))
  = server_error MSG_INVALID_MERMAID.
Proof.
  destruct (C10_absent_content_is_invalid_mermaid
              (service 200 completion_without_content) narrative
              (json_of completion_without_content))
    as (_ & Hts & H002).
  - exists (flow_request narrative). repeat split.
  - vm_compute. reflexivity.
  - split.
    + rewrite Hts; [reflexivity|]. eexists. repeat split.
    + rewrite H002; reflexivity.
Defined.

(** C10 as stated fails: a completion whose content is present but is an
    object, not a string, is not replaced by "{}".  [JSON.parse] converts it
    to the text "[object Object]" and fails; part_002 answers with the
    invalid-JSON error and route.ts with the parser's message. *)
Lemma C10_counterexample_object_content :
  let w := service 200 completion_with_object_content in
  create w (env_text (OPENAI_API_KEY w)) (Part002.params w (trim narrative))
  = Returned (VObj [(lit "choices",
       VArr [VObj [(lit "message",
          VObj [(lit "role", VStr (lit "assistant"));
                (lit "content", VObj [])])]])]) /\
  is_string (VObj []) = false /\
  snd (Part002.POST w) = server_error MSG_INVALID_JSON /\
  snd (Part002.POST w) <> server_error MSG_INVALID_MERMAID /\
  snd (RouteTs.POST w)
  = server_error (SyntaxError_message v8 (lit "[object Object]")).
Proof.
  repeat split; try reflexivity. vm_compute. discriminate.
Qed.

(** ** A completion that is not JSON *)

Lemma RouteTs_parse_failure (w : world) (f : jsstring) (data : value) :
  accepted w f ->
  delivers w (RouteTs.request_init w f) data ->
  JSON_parse (js_engine w) (content_of data) = None ->
  RouteTs.POST w
  = ([Fetch OPENAI_URL (RouteTs.request_init w f)],
     server_error
       (SyntaxError_message (js_engine w) (ToString (content_of data)))).
Proof.
  intros Hacc (resp & Hfetch & Hok & Hjson) Hparse.
  enter_RouteTs Hacc. rewrite Hfetch, try_catch_called, Hok. cbn [negb].
  rewrite Hjson. run. rewrite Hparse. run. reflexivity.
Qed.

(** part_001 and part_002 guard [JSON.parse] and answer with the fixed
    message. *)
Lemma siblings_parse_failure (w : world) (f : jsstring) (data : value) :
  env_missing (OPENAI_API_KEY w) = false ->
  accepted w f ->
  JSON_parse (js_engine w) (content_of data) = None ->
  (delivers w (Part001.request_init w f) data ->
   Part001.POST w
   = ([Fetch OPENAI_URL (Part001.request_init w f)],
      server_error MSG_INVALID_JSON))
  /\
  (create w (env_text (OPENAI_API_KEY w)) (Part002.params w (trim f))
   = Returned data ->
   Part002.POST w
   = ([Create (env_text (OPENAI_API_KEY w)) (Part002.params w (trim f))],
      server_error MSG_INVALID_JSON)).
Proof.
  intros Hkey Hacc Hparse. split.
  - intros (resp & Hfetch & Hok & Hjson).
    enter_Part001 Hkey Hacc. rewrite Hfetch, try_catch_called, Hok.
    cbn [negb]. rewrite Hjson. run. now rewrite Hparse.
  - intros Hcreate.
    enter_Part002 Hkey Hacc. now rewrite Hcreate, try_catch_called, Hparse.
Qed.

(** C4 on route.ts.  The upstream answers 2xx with the content "oops",
    which is not JSON: route.ts has no guard around [JSON.parse], the
    SyntaxError reaches the outer [catch], and the error field is the
    parser's message, not "Model did not return valid JSON."; part_001
    answers the same world with the fixed message. *)
Theorem C4_route_ts_surfaces_parser_message :
  let w := service 200 completion_of_prose in
  JSON_parse (js_engine w) (VStr (lit "oops")) = None /\
  snd (RouteTs.POST w) = server_error (SyntaxError_message v8 (lit "oops")) /\
  snd (RouteTs.POST w) <> server_error MSG_INVALID_JSON /\
  snd (Part001.POST w) = server_error MSG_INVALID_JSON.
Proof.
  repeat split; try reflexivity. vm_compute. discriminate.
Qed.

(** ** A refusal of the service *)

(** C5, as amended.  When the upstream answers with a non-2xx status and
    body text [t], route.ts and part_001 answer HTTP 500 with a body that
    holds nothing but an error text, and this text contains [t]: it is [t]
    itself in route.ts, and [t] after the prefix "OpenAI error (status): "
    in part_001.  In part_002 the refusal comes as an exception of the
    SDK: the answer is HTTP 500 with the fixed error text "Server error",
    and the exception's response data, message or string form in a
    separate [detail] field. *)
Theorem C5_upstream_refusal_surfaced (w : world) (f : jsstring)
  (resp : response) (t : jsstring) :
  accepted w f ->
  (refuses w (RouteTs.request_init w f) resp t ->
   RouteTs.POST w
   = ([Fetch OPENAI_URL (RouteTs.request_init w f)],
      {| status_code := 500; payload := VObj [(lit "error", VStr t)] |})
   /\
   exists e,
     get (payload (snd (RouteTs.POST w))) (lit "error") = VStr e /\
     includes e t = true)
  /\
  (env_missing (OPENAI_API_KEY w) = false ->
   refuses w (Part001.request_init w f) resp t ->
   Part001.POST w
   = ([Fetch OPENAI_URL (Part001.request_init w f)],
      {| status_code := 500;
         payload :=
           VObj [ (lit "error",
                   VStr (lit "OpenAI error (" ++ decimal (status resp)
                         ++ lit "): " ++ t)) ] |})
   /\
   exists e,
     get (payload (snd (Part001.POST w))) (lit "error") = VStr e /\
     includes e t = true)
  /\
  (env_missing (OPENAI_API_KEY w) = false ->
   forall err,
     create w (env_text (OPENAI_API_KEY w)) (Part002.params w (trim f))
     = Threw err ->
     Part002.POST w
     = ([Create (env_text (OPENAI_API_KEY w)) (Part002.params w (trim f))],
        {| status_code := 500;
           payload := VObj [ (lit "error", VStr (lit "Server error"));
                             (lit "detail", Part002.detail_of err) ] |})).
Proof.
  intros Hacc. split; [|split].
  - intros (Hfetch & Hok & Htext).
    assert (H : RouteTs.POST w
                = ([Fetch OPENAI_URL (RouteTs.request_init w f)],
                   server_error t)).
    { enter_RouteTs Hacc. rewrite Hfetch, try_catch_called, Hok. cbn [negb].
      rewrite Htext. run. reflexivity. }
    rewrite H. split; [reflexivity|].
    exists t. split; [reflexivity|]. apply (includes_self_suffix []).
  - intros Hkey (Hfetch & Hok & Htext).
    assert (H : Part001.POST w
                = ([Fetch OPENAI_URL (Part001.request_init w f)],
                   server_error (Part001.upstream_error resp t))).
    { enter_Part001 Hkey Hacc. rewrite Hfetch, try_catch_called, Hok.
      cbn [negb]. rewrite Htext. run. reflexivity. }
    rewrite H. split; [reflexivity|].
    exists (Part001.upstream_error resp t). split; [reflexivity|].
    unfold Part001.upstream_error. rewrite !app_assoc.
    apply includes_self_suffix.
  - intros Hkey err Hcreate.
    enter_Part002 Hkey Hacc. now rewrite Hcreate.
Qed.

(** The quota refusal of the service, HTTP 429. *)
Lemma C5_upstream_refusal_surfaced_witness :
  let t := jtext "{'error':{'code':'insufficient_quota'}}" in
  snd (RouteTs.POST (service 429 t))
  = {| status_code := 500; payload := VObj [(lit "error", VStr t)] |} /\
  snd (Part001.POST (service 429 t))
  = {| status_code := 500;
       payload :=
         VObj [(lit "error", VStr (lit "OpenAI error (429): " ++ t))] |} /\
  includes (lit "OpenAI error (429): " ++ t) t = true.
Proof.
  intros t.
  destruct (C5_upstream_refusal_surfaced (service 429 t) narrative
              {| status := 429; text := Returned t; json := body_json v8 t |} t)
    as (Hts & H001 & _).
  - exists (flow_request narrative). repeat split.
  - split; [|split].
    + destruct Hts as [-> _]; [repeat split | reflexivity].
    + destruct H001 as [-> _]; [reflexivity | repeat split | reflexivity].
    + reflexivity.
Defined.

(** C5 as stated fails on part_002: the service refuses with HTTP 429 and
    the quota body, the SDK throws, and the error text of the answer is
    "Server error", which does not contain the body. *)
Lemma C5_counterexample_part_002 :
  let t := jtext "{'error':{'code':'insufficient_quota'}}" in
  let w := service 429 t in
  create w (lit "sk-test") (Part002.params w (trim narrative))
  = Threw (ThrowError (lit "Error") (lit "429 " ++ t) VUndefined) /\
  status_code (snd (Part002.POST w)) = 500 /\
  get (payload (snd (Part002.POST w))) (lit "error")
  = VStr (lit "Server error") /\
  includes (lit "Server error") t = false.
Proof.
  repeat split; reflexivity.
Qed.

(** ** Exceptions that reach the outer catch *)

(** Where an exception can arise in route.ts. *)
Lemma RouteTs_request_rejects (w : world) (e : thrown) :
  req_json w = Threw e -> RouteTs.handler w = ([], Threw e).
Proof. intros H. unfold RouteTs.handler. rewrite H. now run. Qed.

Lemma RouteTs_request_null (w : world) (request : value) :
  req_json w = Returned request ->
  is_nullish request = true ->
  RouteTs.handler w
  = ([], Threw (TypeError (js_engine w) Destructure request (lit "flow"))).
Proof.
  intros H Hnull. unfold RouteTs.handler. rewrite H. run. rewrite Hnull. now run.
Qed.

Lemma RouteTs_fetch_rejects (w : world) (f : jsstring) (e : thrown) :
  accepted w f ->
  fetch w OPENAI_URL (RouteTs.request_init w f) = Threw e ->
  RouteTs.handler w = ([Fetch OPENAI_URL (RouteTs.request_init w f)], Threw e).
Proof. intros Hacc H. enter_handler Hacc. now rewrite H. Qed.

Lemma RouteTs_body_rejects (w : world) (f : jsstring) (resp : response)
  (e : thrown) :
  accepted w f ->
  fetch w OPENAI_URL (RouteTs.request_init w f) = Returned resp ->
  (if ok resp then json resp = Threw e else text resp = Threw e) ->
  RouteTs.handler w = ([Fetch OPENAI_URL (RouteTs.request_init w f)], Threw e).
Proof.
  intros Hacc H Hbody. enter_handler Hacc. rewrite H. unfold bind at 1.
  destruct (ok resp); cbn [negb]; rewrite Hbody; now run.
Qed.

Lemma RouteTs_parsed_null (w : world) (f : jsstring) (data parsed : value) :
  accepted w f ->
  delivers w (RouteTs.request_init w f) data ->
  JSON_parse (js_engine w) (content_of data) = Some parsed ->
  is_nullish parsed = true ->
  RouteTs.handler w
  = ([Fetch OPENAI_URL (RouteTs.request_init w f)],
     Threw (TypeError (js_engine w) Read parsed (lit "mermaid"))).
Proof.
  intros Hacc (resp & H & Hok & Hjson) Hparse Hnull. enter_handler Hacc.
  rewrite H. unfold bind at 1. rewrite Hok. cbn [negb]. rewrite Hjson. run.
  rewrite Hparse. run. rewrite Hnull. now run.
Qed.

(** C8, as amended.  When an exception escapes the handled branches,
    route.ts and part_001 answer HTTP 500 with an error field equal to the
    exception's message, the exception being an [Error]; part_002 answers
    HTTP 500 with the fixed error "Server error" and puts the exception's
    response data, message or string form into a separate [detail] field. *)
Theorem C8_escaping_exception (w : world) (calls : list call)
  (name message : jsstring) (response : value) :
  let err := ThrowError name message response in
  (RouteTs.handler w = (calls, Threw err) ->
   RouteTs.POST w = (calls, server_error message))
  /\
  (Part001.handler w = (calls, Threw err) ->
   Part001.POST w = (calls, server_error message))
  /\
  (Part002.handler w = (calls, Threw err) ->
   Part002.POST w
   = (calls,
      server_error_with_detail
        (or_else (or_else (opt_get response (lit "data")) (VStr message))
           (VStr (Part002.Error_toString name message))))).
Proof.
  intros err. repeat split; intros H.
  - unfold RouteTs.POST. now rewrite H.
  - unfold Part001.POST. now rewrite H.
  - unfold Part002.POST. now rewrite H.
Qed.

(** A thrown value that is not an [Error] has no message to report. *)
Lemma escaping_non_error (w : world) (calls : list call) (v : value) :
  RouteTs.handler w = (calls, Threw (ThrowValue v)) ->
  RouteTs.POST w = (calls, server_error (lit "Unknown error")).
Proof. intros H. unfold RouteTs.POST. now rewrite H. Qed.

(** The same in part_001; part_002 answers "Server error" and looks for
    the detail in the thrown value. *)
Lemma escaping_non_error_siblings (w : world) (calls : list call) (v : value) :
  (Part001.handler w = (calls, Threw (ThrowValue v)) ->
   Part001.POST w
   = (calls,
      {| status_code := 500;
         payload := VObj [(lit "error", VStr (lit "Unknown error"))] |}))
  /\
  (Part002.handler w = (calls, Threw (ThrowValue v)) ->
   Part002.POST w
   = (calls,
      {| status_code := 500;
         payload :=
           VObj [ (lit "error", VStr (lit "Server error"));
                  (lit "detail",
                   or_else
                     (or_else
                        (opt_get (opt_get v (lit "response")) (lit "data"))
                        (opt_get v (lit "message")))
                     (VStr (ToString v))) ] |})).
Proof.
  split; intros H.
  - unfold Part001.POST. now rewrite H.
  - unfold Part002.POST. now rewrite H.
Qed.

(** The network is down: [fetch] rejects, the SDK throws. *)
Lemma C8_escaping_exception_witness :
  let w := with_request (Returned (flow_request narrative)) no_upstream in
  snd (RouteTs.POST w) = server_error (lit "fetch failed") /\
  snd (Part002.POST w)
  = server_error_with_detail (VStr (lit "Connection error.")).
Proof.
  intros w. split.
  - destruct (C8_escaping_exception w
                [Fetch OPENAI_URL (RouteTs.request_init w narrative)]
                (lit "TypeError") (lit "fetch failed") VUndefined)
      as (H & _ & _).
    rewrite H; reflexivity.
  - destruct (C8_escaping_exception w
                [Create (lit "sk-test") (Part002.params w (trim narrative))]
                (lit "Error") (lit "Connection error.") VUndefined)
      as (_ & _ & H).
    rewrite H; reflexivity.
Defined.

(** C8 as stated fails on part_002: the SDK throws an [Error] whose message
    is "Connection error."; the error field of the answer is "Server
    error". *)
Lemma C8_counterexample_part_002 :
  let w := with_request (Returned (flow_request narrative)) no_upstream in
  snd (Part002.handler w)
  = Threw (ThrowError (lit "Error") (lit "Connection error.") VUndefined) /\
  status_code (snd (Part002.POST w)) = 500 /\
  get (payload (snd (Part002.POST w))) (lit "error")
  = VStr (lit "Server error") /\
  get (payload (snd (Part002.POST w))) (lit "error")
  <> VStr (lit "Connection error.").
Proof.
  repeat split; try reflexivity. vm_compute. discriminate.
Qed.

(** ** The shape of every response *)

Lemma shapes_exclusive (r : http_response) :
  success_shape r -> failure_shape r -> False.
Proof.
  intros [Hst _] [Hno _]. rewrite Hst in Hno. discriminate.
Qed.

Lemma success_is_one_shape (r : http_response) :
  success_shape r -> one_of_two_shapes r.
Proof.
  intros H. left. split; [exact H|]. intros F. exact (shapes_exclusive r H F).
Qed.

Lemma failure_is_one_shape (r : http_response) :
  failure_shape r -> one_of_two_shapes r.
Proof.
  intros F. right. split; [exact F|]. intros H. exact (shapes_exclusive r H F).
Qed.

Lemma bare_failure_is_failure (r : http_response) :
  bare_failure_shape r -> failure_shape r.
Proof.
  intros [Hst [message Hp]]. split; [exact Hst|].
  exists message, []. now rewrite Hp.
Qed.

Lemma returns_bind {A} (P : http_response -> Prop) (c : js A)
  (k : A -> js http_response) :
  (forall a, returns P (k a)) -> returns P (bind c k).
Proof.
  intros H. destruct c as [calls [a|e]]; [|exact I].
  specialize (H a). unfold bind. now destruct (k a).
Qed.

Lemma returns_try_catch (P : http_response -> Prop) (c : js http_response)
  (h : thrown -> http_response) :
  returns P c -> (forall e, P (h e)) -> P (snd (try_catch c h)).
Proof.
  intros Hc Hh. destruct c as [calls [r|e]]; [exact Hc | apply Hh].
Qed.

Lemma handled_error (message : jsstring) (st : N) :
  is_2xx st = false ->
  returns handled (ret (NextResponse_json (error_body message) (Some st))).
Proof. intros H. right. split; [exact H|]. now exists message. Qed.

Lemma handled_diagram (mermaid notes : jsstring) :
  returns handled (ret (NextResponse_json (diagram_body mermaid notes) None)).
Proof. left. split; [reflexivity|]. now exists mermaid, notes. Qed.

Ltac walk :=
  cbv zeta;
  repeat first
    [ apply returns_bind; intros ?
    | apply handled_error; reflexivity
    | apply handled_diagram
    | match goal with
      | |- returns _ (if ?b then _ else _) => destruct b
      | |- returns _ (match ?x with Some _ => _ | None => _ end) => destruct x
      end ].

Lemma RouteTs_handled (w : world) : returns handled (RouteTs.handler w).
Proof. unfold RouteTs.handler. walk. Qed.

Lemma Part001_handled (w : world) : returns handled (Part001.handler w).
Proof. unfold Part001.handler. walk. Qed.

Lemma Part002_handled (w : world) : returns handled (Part002.handler w).
Proof. unfold Part002.handler. walk. Qed.

(** In route.ts and part_001 every failure body is [{ error }] alone. *)
Lemma bare_failures (w : world) :
  handled (snd (RouteTs.POST w)) /\ handled (snd (Part001.POST w)).
Proof.
  unfold RouteTs.POST, Part001.POST.
  split; apply returns_try_catch;
    solve [ apply RouteTs_handled | apply Part001_handled
          | intros e; right; split; [reflexivity | eexists; reflexivity] ].
Qed.

(** In part_002 the failure body of the [catch] clause has a second field,
    [detail]. *)
Lemma Part002_shapes (w : world) :
  let r := snd (Part002.POST w) in
  handled r \/ exists detail, r = server_error_with_detail detail.
Proof.
  unfold Part002.POST.
  pose proof (Part002_handled w) as H.
  destruct (Part002.handler w) as [calls [r|e]]; cbn [try_catch snd].
  - left. exact H.
  - right. now exists (Part002.detail_of e).
Qed.

Lemma handled_one_shape (r : http_response) : handled r -> one_of_two_shapes r.
Proof.
  intros [H|H].
  - now apply success_is_one_shape.
  - now apply failure_is_one_shape, bare_failure_is_failure.
Qed.

(** C6.  Whatever the request and the upstream do, the response of each
    revision has exactly one of two shapes: status 200 with a body of the
    two fields [mermaid] and [notes], each holding a string and nothing
    else beside them, or a status outside 200..299 with a body that has an
    [error] field holding a string and no [mermaid] or [notes] field. *)
Theorem C6_two_response_shapes (w : world) :
  one_of_two_shapes (snd (RouteTs.POST w)) /\
  one_of_two_shapes (snd (Part001.POST w)) /\
  one_of_two_shapes (snd (Part002.POST w)).
Proof.
  destruct (bare_failures w) as [Hts H001].
  repeat split; try (now apply handled_one_shape).
  destruct (Part002_shapes w) as [H | [detail H]].
  - now apply handled_one_shape.
  - apply failure_is_one_shape. rewrite H. split; [reflexivity|].
    now exists Part002.MSG_SERVER_ERROR, [(lit "detail", detail)].
Qed.

(** ** cleanApiError *)

(** C9, as amended.  [cleanApiError] maps a message that contains
    "insufficient_quota" to the quota text; otherwise one that contains
    "Model did not return" (so the marker-failure message, and the
    invalid-JSON message as well) to the render text; otherwise one whose
    trimmed text starts with an opening brace to the generic "unexpected
    response" text; and returns every other message unchanged. *)
Theorem C9_cleanApiError_cases (msg : jsstring) :
  (includes msg (lit "insufficient_quota") = true ->
   cleanApiError msg = MSG_QUOTA)
  /\
  (includes msg (lit "insufficient_quota") = false ->
   includes msg (lit "Model did not return") = true ->
   cleanApiError msg = MSG_RENDER)
  /\
  (includes msg (lit "insufficient_quota") = false ->
   includes msg (lit "Model did not return") = false ->
   startsWith (trim msg) (lit "{") = true ->
   cleanApiError msg = MSG_UNEXPECTED)
  /\
  (includes msg (lit "insufficient_quota") = false ->
   includes msg (lit "Model did not return") = false ->
   startsWith (trim msg) (lit "{") = false ->
   cleanApiError msg = msg)
  /\
  cleanApiError MSG_INVALID_MERMAID_RETRY = MSG_RENDER.
Proof.
  unfold cleanApiError. repeat split.
  - now intros ->.
  - now intros -> ->.
  - now intros -> -> ->.
  - now intros -> -> ->.
Qed.

(** The bodies the UI receives from the endpoint, and a message of its
    own. *)
Lemma C9_cleanApiError_cases_witness :
  cleanApiError
    (jtext "{'error':'OpenAI error (429): { \'code\': \'insufficient_quota\' }'}")
  = MSG_QUOTA /\
  cleanApiError (jtext "{'error':'Model did not return valid Mermaid. Try again.'}")
  = MSG_RENDER /\
  cleanApiError (jtext "{'error':'Please provide a longer narrative.'}")
  = MSG_UNEXPECTED /\
  cleanApiError (lit "Please paste or select a preset narrative first.")
  = lit "Please paste or select a preset narrative first.".
Proof.
  split; [|split; [|split]].
  - apply (C9_cleanApiError_cases
             (jtext "{'error':'OpenAI error (429): { \'code\': \'insufficient_quota\' }'}")).
    reflexivity.
  - apply (C9_cleanApiError_cases
             (jtext "{'error':'Model did not return valid Mermaid. Try again.'}"));
      reflexivity.
  - apply (C9_cleanApiError_cases
             (jtext "{'error':'Please provide a longer narrative.'}"));
      reflexivity.
  - apply (C9_cleanApiError_cases
             (lit "Please paste or select a preset narrative first."));
      reflexivity.
Defined.

(** C9 as stated fails: a message that matches neither substring and does
    not start with a brace, such as the UI's own "Please paste or select a
    preset narrative first.", is returned as it is, not replaced by the
    generic text. *)
Lemma C9_counterexample_passthrough :
  let msg := lit "Please paste or select a preset narrative first." in
  includes msg (lit "insufficient_quota") = false /\
  includes msg (lit "Model did not return") = false /\
  cleanApiError msg = msg /\
  cleanApiError msg <> MSG_UNEXPECTED.
Proof.
  repeat split; try reflexivity. vm_compute. discriminate.
Qed.


(* ================================================================== *)
(** * Further properties of the endpoint *)

Lemma settles_bind {A} (P : http_response -> Prop) (c : js A)
  (k : A -> js http_response) :
  fst c = [] -> (forall a, settles P (k a)) -> settles P (bind c k).
Proof.
  intros Hc Hk. destruct c as [calls [a|e]]; simpl in Hc; subst calls.
  - rewrite bind_returned. apply Hk.
  - split; [reflexivity | exact I].
Qed.

Lemma settles_ret (P : http_response -> Prop) (r : http_response) :
  P r -> settles P (ret r).
Proof. intros H. split; [reflexivity | exact H]. Qed.

Lemma settles_try_catch (P : http_response -> Prop) (c : js http_response)
  (h : thrown -> http_response) :
  settles P c -> (forall e, P (h e)) ->
  exists r, try_catch c h = ([], r) /\ P r.
Proof.
  intros [Hq Hr] Hh. destruct c as [calls [r|e]]; simpl in Hq; subst calls.
  - exists r. split; [reflexivity | exact Hr].
  - exists (h e). split; [reflexivity | apply Hh].
Qed.

Lemma after_call_error (message : jsstring) :
  settles after_call (ret (NextResponse_json (error_body message) (Some 500))).
Proof. apply settles_ret. now right. Qed.

Lemma after_call_tail (E : engine) (message : jsstring) (parsed : value) :
  settles after_call
    (parsed_mermaid <- member E parsed (lit "mermaid") ;;
     let mermaid := string_or_empty parsed_mermaid in
     parsed_notes <- member E parsed (lit "notes") ;;
     let notes := string_or_empty parsed_notes in
     if negb (startsWith mermaid GRAMMAR_MARKER)
     then ret (NextResponse_json (error_body message) (Some 500))
     else ret (NextResponse_json (diagram_body mermaid notes) None)).
Proof.
  unfold member. destruct (is_nullish parsed).
  - split; [reflexivity | exact I].
  - unfold ret at 1. rewrite bind_returned. cbv zeta.
    unfold ret at 1. rewrite bind_returned.
    destruct (startsWith _ GRAMMAR_MARKER) eqn:Hstart; cbn [negb].
    + apply settles_ret. left. now eexists _, _.
    + apply after_call_error.
Qed.

Lemma RouteTs_after_call (w : world) (resp : response) :
  settles after_call
    (if negb (ok resp)
     then
       t <- await (text resp) ;;
       ret (NextResponse_json (error_body t) (Some 500))
     else
       data <- await (json resp) ;;
       let content := content_of data in
       parsed <- JSON_parse_or_throw (js_engine w) content ;;
       parsed_mermaid <- member (js_engine w) parsed (lit "mermaid") ;;
       let mermaid := string_or_empty parsed_mermaid in
       parsed_notes <- member (js_engine w) parsed (lit "notes") ;;
       let notes := string_or_empty parsed_notes in
       if negb (startsWith mermaid GRAMMAR_MARKER)
       then ret (NextResponse_json (error_body MSG_INVALID_MERMAID_RETRY)
                   (Some 500))
       else ret (NextResponse_json (diagram_body mermaid notes) None)).
Proof.
  destruct (negb (ok resp)).
  - apply settles_bind; [reflexivity|]. intros t. apply after_call_error.
  - apply settles_bind; [reflexivity|]. intros data. cbv zeta.
    apply settles_bind.
    + unfold JSON_parse_or_throw. now destruct (JSON_parse _ _).
    + intros parsed. apply after_call_tail.
Qed.

Lemma Part001_after_call (w : world) (resp : response) :
  settles after_call
    (if negb (ok resp)
     then
       t <- await (text resp) ;;
       ret (NextResponse_json (error_body (Part001.upstream_error resp t))
              (Some 500))
     else
       data <- await (json resp) ;;
       let content := content_of data in
       match JSON_parse (js_engine w) content with
       | None =>
           ret (NextResponse_json (error_body MSG_INVALID_JSON) (Some 500))
       | Some parsed =>
           parsed_mermaid <- member (js_engine w) parsed (lit "mermaid") ;;
           let mermaid := string_or_empty parsed_mermaid in
           parsed_notes <- member (js_engine w) parsed (lit "notes") ;;
           let notes := string_or_empty parsed_notes in
           if negb (startsWith mermaid GRAMMAR_MARKER)
           then ret (NextResponse_json
                       (error_body MSG_INVALID_MERMAID_RETRY) (Some 500))
           else ret (NextResponse_json (diagram_body mermaid notes) None)
       end).
Proof.
  destruct (negb (ok resp)).
  - apply settles_bind; [reflexivity|]. intros t. apply after_call_error.
  - apply settles_bind; [reflexivity|]. intros data. cbv zeta.
    destruct (JSON_parse _ _) as [parsed|].
    + apply after_call_tail.
    + apply after_call_error.
Qed.

Lemma Part002_after_call (w : world) (resp : value) :
  settles after_call
    (let content := content_of resp in
     match JSON_parse (js_engine w) content with
     | None =>
         ret (NextResponse_json (error_body MSG_INVALID_JSON) (Some 500))
     | Some parsed =>
         parsed_mermaid <- member (js_engine w) parsed (lit "mermaid") ;;
         let mermaid := string_or_empty parsed_mermaid in
         parsed_notes <- member (js_engine w) parsed (lit "notes") ;;
         let notes := string_or_empty parsed_notes in
         if negb (startsWith mermaid GRAMMAR_MARKER)
         then ret (NextResponse_json (error_body MSG_INVALID_MERMAID)
                     (Some 500))
         else ret (NextResponse_json (diagram_body mermaid notes) None)
     end).
Proof.
  cbv zeta. destruct (JSON_parse _ _) as [parsed|].
  - apply after_call_tail.
  - apply after_call_error.
Qed.

(** A [try] block that is an upstream call followed by a computation that
    settles. *)
Lemma called_then_settles {A} (c : call) (o : outcome A)
  (k : A -> js http_response) (h : thrown -> http_response) :
  (forall a, settles after_call (k a)) ->
  (forall e, status_code (h e) = 500) ->
  exists r, try_catch (bind ([c], o) k) h = ([c], r) /\ after_call r.
Proof.
  intros Hk Hh. destruct o as [a|e].
  - destruct (settles_try_catch after_call (k a) h (Hk a)) as (r & Hr & HP).
    + intros e. right. apply Hh.
    + exists r. split; [|exact HP]. now rewrite try_catch_called, Hr.
  - exists (h e). split; [reflexivity|]. right. apply Hh.
Qed.

Lemma flow_usable_string (flow : value) :
  flow_unusable flow = false -> exists f, flow = VStr f.
Proof. destruct flow; try discriminate. intros _. now eexists. Qed.

Lemma RouteTs_ends (w : world) : ends RouteTs.POST accepted RouteTs_call w.
Proof.
  unfold ends, RouteTs.POST, RouteTs.handler.
  destruct (req_json w) as [request|e] eqn:Hreq; run;
    [|right; left; now eexists].
  destruct (is_nullish request) eqn:Hnn; run; [right; left; now eexists|].
  rewrite guard_flow_unusable.
  destruct (flow_unusable (get request (lit "flow"))) eqn:Hflow;
    [now left|].
  right; right.
  destruct (flow_usable_string _ Hflow) as [f Hf]. rewrite Hf in *.
  cbn [string_or_empty].
  destruct (called_then_settles (RouteTs_call w f)
              (fetch w OPENAI_URL (RouteTs.request_init w f))
              _ RouteTs.on_error (RouteTs_after_call w) (fun e => eq_refl))
    as (r & Hr & HP).
  exists f, r. split; [now exists request|]. split; [exact Hr | exact HP].
Qed.

Lemma Part001_ends (w : world) : ends Part001.POST admitted Part001_call w.
Proof.
  unfold ends, Part001.POST, Part001.handler.
  destruct (env_missing (OPENAI_API_KEY w)) eqn:Hkey;
    [right; left; now eexists|].
  destruct (is_nullish (Part001.request_or_empty w)) eqn:Hnn; run;
    rewrite Hnn; run; [right; left; now eexists|].
  rewrite guard_flow_unusable.
  destruct (flow_unusable (get (Part001.request_or_empty w) (lit "flow")))
    eqn:Hflow; [now left|].
  right; right.
  destruct (flow_usable_string _ Hflow) as [f Hf]. rewrite Hf in *.
  cbn [string_or_empty].
  destruct (called_then_settles (Part001_call w f)
              (fetch w OPENAI_URL (Part001.request_init w f))
              _ Part001.on_error (Part001_after_call w) (fun e => eq_refl))
    as (r & Hr & HP).
  exists f, r. split; [|split; [exact Hr | exact HP]].
  split; [exact Hkey|].
  unfold Part001.request_or_empty in *.
  destruct (req_json w) as [request|e] eqn:Hreq.
  - now exists request.
  - discriminate Hf.
Qed.

Lemma Part002_ends (w : world) : ends Part002.POST admitted Part002_call w.
Proof.
  unfold ends, Part002.POST, Part002.handler.
  destruct (env_missing (OPENAI_API_KEY w)) eqn:Hkey;
    [right; left; now eexists|].
  destruct (is_nullish (Part002.request_or_empty w)) eqn:Hnn; run;
    rewrite Hnn; run; [right; left; now eexists|].
  rewrite part_002_guard_flow_unusable.
  destruct (flow_unusable (get (Part002.request_or_empty w) (lit "flow")))
    eqn:Hflow; [now left|].
  right; right.
  destruct (flow_usable_string _ Hflow) as [f Hf]. rewrite Hf in *.
  destruct (called_then_settles (Part002_call w f)
              (create w (env_text (OPENAI_API_KEY w))
                 (Part002.params w (trim f)))
              _ Part002.on_error (Part002_after_call w) (fun e => eq_refl))
    as (r & Hr & HP).
  exists f, r. split; [|split; [exact Hr | exact HP]].
  split; [exact Hkey|].
  unfold Part002.request_or_empty in *.
  destruct (req_json w) as [request|e] eqn:Hreq.
  - now exists request.
  - discriminate Hf.
Qed.

Lemma missing_key (w : world) :
  env_missing (OPENAI_API_KEY w) = true ->
  Part001.POST w = ([], server_error Part001.MSG_MISSING_KEY) /\
  Part002.POST w = ([], server_error Part002.MSG_MISSING_KEY).
Proof.
  intros Hkey. unfold Part001.POST, Part001.handler, Part002.POST,
    Part002.handler. now rewrite Hkey.
Qed.

(** X1.  With [OPENAI_API_KEY] unset or empty, part_001 and part_002
    answer HTTP 500 with their missing-key message, whatever the request
    is, and call nobody. *)
Theorem X1_missing_key_refused (w : world) :
  env_missing (OPENAI_API_KEY w) = true ->
  Part001.POST w = ([], server_error Part001.MSG_MISSING_KEY) /\
  Part002.POST w = ([], server_error Part002.MSG_MISSING_KEY).
Proof. apply missing_key. Qed.

(** An empty key, and a request that would otherwise succeed. *)
Lemma X1_missing_key_refused_witness :
  Part001.POST (with_key (Some []) (service 200 completion_of_diagram))
  = ([], server_error Part001.MSG_MISSING_KEY) /\
  Part002.POST (with_key (Some []) (service 200 completion_of_diagram))
  = ([], server_error Part002.MSG_MISSING_KEY).
Proof.
  apply (X1_missing_key_refused
           (with_key (Some []) (service 200 completion_of_diagram))).
  reflexivity.
Defined.

(** X2.  Whatever the request and the upstream do, each revision calls
    the text-generation service at most once, and only for a narrative it
    has accepted; the call is the one built from that narrative (trimmed,
    in part_002). *)
Theorem X2_one_call_for_an_accepted_narrative (w : world) :
  (fst (RouteTs.POST w) = [] \/
   exists f, accepted w f /\ fst (RouteTs.POST w) = [RouteTs_call w f]) /\
  (fst (Part001.POST w) = [] \/
   exists f, admitted w f /\ fst (Part001.POST w) = [Part001_call w f]) /\
  (fst (Part002.POST w) = [] \/
   exists f, admitted w f /\ fst (Part002.POST w) = [Part002_call w f]).
Proof.
  split; [|split].
  - destruct (RouteTs_ends w) as [H | [(r & H & _) | (f & r & Ha & H & _)]];
      rewrite H; [now left | now left | right; now exists f].
  - destruct (Part001_ends w) as [H | [(r & H & _) | (f & r & Ha & H & _)]];
      rewrite H; [now left | now left | right; now exists f].
  - destruct (Part002_ends w) as [H | [(r & H & _) | (f & r & Ha & H & _)]];
      rewrite H; [now left | now left | right; now exists f].
Qed.

Lemma ends_success (POST : world -> list call * http_response)
  (reaches : world -> jsstring -> Prop) (upstream : world -> jsstring -> call)
  (w : world) :
  ends POST reaches upstream w ->
  status_code (snd (POST w)) = 200 ->
  exists f mermaid notes,
    reaches w f /\
    POST w = ([upstream w f], diagram mermaid notes) /\
    startsWith mermaid GRAMMAR_MARKER = true.
Proof.
  intros [H | [(r & H & Hr) | (f & r & Ha & H & [Hm | Hr])]] Hst;
    rewrite H in Hst; cbn [snd] in Hst.
  - discriminate.
  - rewrite Hr in Hst. discriminate.
  - destruct Hm as (m & n & -> & Hstart). now exists f, m, n.
  - rewrite Hr in Hst. discriminate.
Qed.

(** X3.  A 200 response is never sent without a diagram that starts with
    "sequenceDiagram": in each revision, status 200 means that the
    narrative was accepted, that exactly one upstream call was made, and
    that the body is a diagram with the marker and its notes. *)
Theorem X3_success_carries_marked_diagram (w : world) :
  (status_code (snd (RouteTs.POST w)) = 200 ->
   exists f mermaid notes,
     accepted w f /\
     RouteTs.POST w = ([RouteTs_call w f], diagram mermaid notes) /\
     startsWith mermaid GRAMMAR_MARKER = true) /\
  (status_code (snd (Part001.POST w)) = 200 ->
   exists f mermaid notes,
     admitted w f /\
     Part001.POST w = ([Part001_call w f], diagram mermaid notes) /\
     startsWith mermaid GRAMMAR_MARKER = true) /\
  (status_code (snd (Part002.POST w)) = 200 ->
   exists f mermaid notes,
     admitted w f /\
     Part002.POST w = ([Part002_call w f], diagram mermaid notes) /\
     startsWith mermaid GRAMMAR_MARKER = true).
Proof.
  split; [|split].
  - apply ends_success, RouteTs_ends.
  - apply ends_success, Part001_ends.
  - apply ends_success, Part002_ends.
Qed.

Lemma X3_success_carries_marked_diagram_witness :
  exists f mermaid notes,
    accepted (service 200 completion_of_diagram) f /\
    RouteTs.POST (service 200 completion_of_diagram)
    = ([RouteTs_call (service 200 completion_of_diagram) f],
       diagram mermaid notes) /\
    startsWith mermaid GRAMMAR_MARKER = true.
Proof.
  apply (X3_success_carries_marked_diagram (service 200 completion_of_diagram)).
  reflexivity.
Defined.

Lemma ends_status (POST : world -> list call * http_response)
  (reaches : world -> jsstring -> Prop) (upstream : world -> jsstring -> call)
  (w : world) :
  ends POST reaches upstream w ->
  (status_code (snd (POST w)) = 200 \/
   status_code (snd (POST w)) = 400 \/
   status_code (snd (POST w)) = 500) /\
  (status_code (snd (POST w)) = 400 -> POST w = ([], rejection)).
Proof.
  intros [H | [(r & H & Hr) | (f & r & Ha & H & [Hm | Hr])]];
    rewrite H; cbn [snd].
  - split; [right; now left | trivial].
  - rewrite Hr. split; [now right; right | discriminate].
  - destruct Hm as (m & n & -> & _). split; [now left | discriminate].
  - rewrite Hr. split; [now right; right | discriminate].
Qed.



(** X5.  A request whose body is the JSON value [null] is not answered
    with the validation error: reading [flow] from it throws, and every
    revision answers HTTP 500 without calling upstream; in route.ts and
    part_001 the error field is the TypeError's message. *)
Theorem X5_null_body (w : world) (request : value) :
  req_json w = Returned request ->
  is_nullish request = true ->
  RouteTs.POST w
  = ([], server_error
           (TypeError_message (js_engine w) Destructure request (lit "flow")))
  /\
  (env_missing (OPENAI_API_KEY w) = false ->
   Part001.POST w
   = ([], server_error
            (TypeError_message (js_engine w) Destructure request (lit "flow")))
   /\
   Part002.POST w
   = ([], server_error_with_detail
            (Part002.detail_of
               (TypeError (js_engine w) Read request (lit "flow"))))).
Proof.
  intros Hreq Hnull. split; [|intros Hkey; split].
  - unfold RouteTs.POST. now rewrite (RouteTs_request_null w request Hreq Hnull).
  - unfold Part001.POST, Part001.handler, Part001.request_or_empty.
    rewrite Hkey, Hreq. run. rewrite Hnull. now run.
  - unfold Part002.POST, Part002.handler, Part002.request_or_empty.
    rewrite Hkey, Hreq. run. rewrite Hnull. now run.
Qed.

Lemma X5_null_body_witness :
  let w := with_request (body_json v8 (lit "null")) no_upstream in
  status_code (snd (RouteTs.POST w)) = 500 /\
  status_code (snd (Part002.POST w)) = 500.
Proof.
  intros w.
  destruct (X5_null_body w VNull) as [Hts Hsib];
    [reflexivity | reflexivity |].
  destruct Hsib as [_ H002]; [reflexivity|].
  rewrite Hts, H002. split; reflexivity.
Defined.

(** X6.  A request body that cannot be read as JSON: route.ts lets the
    exception reach its catch clause and answers HTTP 500 with the
    exception's message, while part_001 and part_002 replace the body by
    an empty object and answer with the validation error, HTTP 400.  None
    calls upstream. *)
Theorem X6_unreadable_body (w : world) (name message : jsstring)
  (response : value) :
  req_json w = Threw (ThrowError name message response) ->
  RouteTs.POST w = ([], server_error message) /\
  (env_missing (OPENAI_API_KEY w) = false ->
   Part001.POST w = ([], rejection) /\ Part002.POST w = ([], rejection)).
Proof.
  intros Hreq. split.
  - unfold RouteTs.POST. now rewrite (RouteTs_request_rejects w _ Hreq).
  - intros Hkey. now apply unreadable_request_rejected with (e := ThrowError name message response).
Qed.

Lemma X6_unreadable_body_witness :
  let w := with_request (body_json v8 (lit "flow=hello")) no_upstream in
  RouteTs.POST w = ([], server_error (SyntaxError_message v8 (lit "flow=hello")))
  /\ Part001.POST w = ([], rejection) /\ Part002.POST w = ([], rejection).
Proof.
  intros w.
  destruct (X6_unreadable_body w (lit "SyntaxError")
              (SyntaxError_message v8 (lit "flow=hello")) VUndefined)
    as [Hts Hsib]; [reflexivity|].
  split; [exact Hts | apply Hsib; reflexivity].
Defined.

(** X7.  A completion whose content is JSON but denotes [null] passes
    [JSON.parse] and then fails at the first property read: the answer is
    HTTP 500 with the TypeError's message in route.ts and part_001 (not the
    invalid-Mermaid message), and "Server error" with a detail in
    part_002. *)
Theorem X7_null_result (w : world) (f : jsstring) (data parsed : value) :
  accepted w f ->
  JSON_parse (js_engine w) (content_of data) = Some parsed ->
  is_nullish parsed = true ->
  (delivers w (RouteTs.request_init w f) data ->
   RouteTs.POST w
   = ([RouteTs_call w f],
      server_error
        (TypeError_message (js_engine w) Read parsed (lit "mermaid"))))
  /\
  (env_missing (OPENAI_API_KEY w) = false ->
   (delivers w (Part001.request_init w f) data ->
    Part001.POST w
    = ([Part001_call w f],
       server_error
         (TypeError_message (js_engine w) Read parsed (lit "mermaid"))))
   /\
   (create w (env_text (OPENAI_API_KEY w)) (Part002.params w (trim f))
    = Returned data ->
    Part002.POST w
    = ([Part002_call w f],
       server_error_with_detail
         (Part002.detail_of
            (TypeError (js_engine w) Read parsed (lit "mermaid")))))).
Proof.
  intros Hacc Hparse Hnull. split; [|intros Hkey; split].
  - intros Hup. unfold RouteTs.POST.
    now rewrite (RouteTs_parsed_null w f data parsed Hacc Hup Hparse Hnull).
  - intros (resp & Hfetch & Hok & Hjson).
    enter_Part001 Hkey Hacc. rewrite Hfetch, try_catch_called, Hok.
    cbn [negb]. rewrite Hjson. run. rewrite Hparse. run. rewrite Hnull.
    now run.
  - intros Hcreate.
    enter_Part002 Hkey Hacc. rewrite Hcreate, try_catch_called, Hparse.
    run. rewrite Hnull. now run.
Qed.

Lemma X7_null_result_witness :
  let w := service 200 completion_of_null in
  RouteTs.POST w
  = ([RouteTs_call w narrative],
     server_error (lit "Cannot read properties of null (reading 'mermaid')")).
Proof.
  intros w.
  destruct (X7_null_result w narrative (json_of completion_of_null) VNull)
    as [Hts _].
  - exists (flow_request narrative). repeat split.
  - vm_compute. reflexivity.
  - reflexivity.
  - rewrite Hts; [reflexivity|]. eexists. repeat split.
Defined.

(* ================================================================== *)
(** * app/api/env/route.js *)

Lemma Part002_refusal_needs_missing_key (w : world) :
  Part002.POST w = ([], server_error Part002.MSG_MISSING_KEY) ->
  env_missing (OPENAI_API_KEY w) = true.
Proof.
  destruct (env_missing (OPENAI_API_KEY w)) eqn:Hkey; [trivial|].
  unfold Part002.POST, Part002.handler. rewrite Hkey. run.
  destruct (is_nullish (Part002.request_or_empty w)); run;
    [discriminate|].
  destruct (N.of_nat _ <? 10); [discriminate|].
  destruct (create w _ _) as [resp|e]; [|discriminate].
  rewrite try_catch_called. discriminate.
Qed.

(** X8.  [GET /api/env] answers 200 with the text {"hasKey":true} or
    {"hasKey":false} and nothing else about the key; [hasKey] is false
    exactly when part_002 refuses every request with its missing-key
    error, and then part_001 refuses as well. *)
Theorem X8_env_route_reports_the_key_guard (w : world) :
  EnvRoute.response_status (EnvRoute.GET w) = 200 /\
  EnvRoute.response_body (EnvRoute.GET w)
  = (if EnvRoute.hasKey w then jtext "{'hasKey':true}"
     else jtext "{'hasKey':false}") /\
  (EnvRoute.hasKey w = false <->
   Part002.POST w = ([], server_error Part002.MSG_MISSING_KEY)) /\
  (EnvRoute.hasKey w = false ->
   Part001.POST w = ([], server_error Part001.MSG_MISSING_KEY)).
Proof.
  unfold EnvRoute.GET, EnvRoute.hasKey. cbn [EnvRoute.response_status
    EnvRoute.response_body].
  split; [reflexivity|]. split; [now destruct (env_missing _)|].
  split; [split|].
  - intros H. apply missing_key. now destruct (env_missing _).
  - intros H. now rewrite (Part002_refusal_needs_missing_key w H).
  - intros H. apply missing_key. now destruct (env_missing _).
Qed.

Lemma X8_env_route_reports_the_key_guard_witness :
  Part001.POST (with_key None (service 200 completion_of_diagram))
  = ([], server_error Part001.MSG_MISSING_KEY).
Proof.
  apply (X8_env_route_reports_the_key_guard
           (with_key None (service 200 completion_of_diagram))).
  reflexivity.
Defined.

(* ================================================================== *)
(** * app/page.tsx *)

Lemma cleanApiError_fixed_points :
  cleanApiError MSG_QUOTA = MSG_QUOTA /\
  cleanApiError MSG_RENDER = MSG_RENDER /\
  cleanApiError MSG_UNEXPECTED = MSG_UNEXPECTED.
Proof. repeat split. Qed.

(** X9.  [cleanApiError] is idempotent: a cleaned message is not changed
    by cleaning it again. *)
Theorem X9_cleanApiError_idempotent (msg : jsstring) :
  cleanApiError (cleanApiError msg) = cleanApiError msg.
Proof.
  destruct cleanApiError_fixed_points as (Hq & Hr & Hu).
  unfold cleanApiError at 2 3.
  destruct (includes msg (lit "insufficient_quota")) eqn:H1; [exact Hq|].
  destruct (includes msg (lit "Model did not return")) eqn:H2; [exact Hr|].
  destruct (startsWith (trim msg) (lit "{")) eqn:H3; [exact Hu|].
  unfold cleanApiError. now rewrite H1, H2, H3.
Qed.

Lemma brace_is_cleaned (msg : jsstring) :
  startsWith (trim msg) (lit "{") = true ->
  cleanApiError msg = MSG_QUOTA \/
  cleanApiError msg = MSG_RENDER \/
  cleanApiError msg = MSG_UNEXPECTED.
Proof.
  intros H. unfold cleanApiError. rewrite H.
  destruct (includes msg _); [now left|].
  destruct (includes msg _); [right; now left | right; now right].
Qed.

(** X10.  A message that is a JSON object text, that is, whose trimmed
    text starts with an opening brace, is never shown as it is: it becomes
    one of the three fixed texts. *)
Theorem X10_object_text_never_shown (msg : jsstring) :
  startsWith (trim msg) (lit "{") = true ->
  cleanApiError msg = MSG_QUOTA \/
  cleanApiError msg = MSG_RENDER \/
  cleanApiError msg = MSG_UNEXPECTED.
Proof. apply brace_is_cleaned. Qed.

Lemma X10_object_text_never_shown_witness :
  let msg := jtext " {'error':'Please provide a longer narrative.'}" in
  cleanApiError msg = MSG_QUOTA \/
  cleanApiError msg = MSG_RENDER \/
  cleanApiError msg = MSG_UNEXPECTED.
Proof.
  intros msg. apply (X10_object_text_never_shown msg). reflexivity.
Defined.

Lemma blank_is_empty (s : jsstring) :
  truthy (VStr s) = false <-> s = [].
Proof. destruct s; simpl; split; congruence. Qed.

(** X11.  [generate] on a narrative that is empty or white space only
    sends no request: it shows "Please paste or select a preset narrative
    first.", with no diagram and no notes, and is not left loading. *)
Theorem X11_blank_narrative_not_sent
  (net : jsstring -> fetch_init -> outcome response) (st : Page.state) :
  trim (Page.flow st) = [] ->
  Page.generate net st
  = ([], {| Page.flow := Page.flow st; Page.mermaidCode := [];
            Page.notes := []; Page.loading := false;
            Page.error := Page.MSG_PASTE |}).
Proof.
  intros H. unfold Page.generate, Page.attempt. now rewrite H.
Qed.

Lemma X11_blank_narrative_not_sent_witness :
  fst (Page.generate (fun _ _ => Returned {| status := 200; text := Returned [];
                                             json := Returned VNull |})
         {| Page.flow := [32; 9; 10; 160]; Page.mermaidCode := lit "sequenceDiagram";
            Page.notes := lit "- a"; Page.loading := false; Page.error := [] |})
  = [].
Proof.
  rewrite X11_blank_narrative_not_sent; reflexivity.
Defined.

Lemma yields_bind {A B} (P : B -> Prop) (c : js A) (k : A -> js B) :
  fst c = [] -> (forall a, yields P (k a)) -> yields P (bind c k).
Proof.
  intros Hc Hk. destruct c as [calls [a|e]]; simpl in Hc; subst calls.
  - rewrite bind_returned. apply Hk.
  - split; [reflexivity | exact I].
Qed.

Lemma yields_throw {A} (P : A -> Prop) (e : thrown) : yields P (throw e).
Proof. split; [reflexivity | exact I]. Qed.

Lemma called_then_yields {A B} (P : B -> Prop) (c : call) (o : outcome A)
  (k : A -> js B) :
  (forall a, yields P (k a)) ->
  fst (bind ([c], o) k) = [c] /\
  match snd (bind ([c], o) k) with
  | Returned b => P b
  | Threw _ => True
  end.
Proof.
  intros Hk. destruct o as [a|e]; [|split; [reflexivity | exact I]].
  destruct (Hk a) as [Hq HP]. unfold bind.
  destruct (k a) as [calls' r]. simpl in *. now subst calls'.
Qed.

(** The [try] block of [generate] makes at most one request and returns
    only a diagram with the marker. *)
Lemma attempt_yields (net : jsstring -> fetch_init -> outcome response)
  (flow : jsstring) :
  (List.length (fst (Page.attempt net flow)) <= 1)%nat /\
  match snd (Page.attempt net flow) with
  | Returned (m, _) => startsWith m GRAMMAR_MARKER = true
  | Threw _ => True
  end.
Proof.
  unfold Page.attempt.
  destruct (negb (truthy (VStr (trim flow)))); [split; [simpl; lia | exact I]|].
  match goal with
  | |- context [bind ([?c], ?o) ?k] =>
      destruct (called_then_yields
                  (fun p : jsstring * jsstring =>
                     startsWith (fst p) GRAMMAR_MARKER = true) c o k)
        as [Hcalls Hres]
  end.
  - intros r. destruct (negb (ok r)).
    + apply yields_bind; [reflexivity|]. intros t. apply yields_throw.
    + apply yields_bind; [reflexivity|]. intros data. cbv zeta.
      destruct (startsWith _ GRAMMAR_MARKER) eqn:Hstart; cbn [negb].
      * split; [reflexivity | exact Hstart].
      * apply yields_throw.
  - rewrite Hcalls. split; [simpl; lia|].
    destruct (snd _) as [[m n]|e]; [exact Hres | exact I].
Qed.

(** X12.  However the request ends, [generate] makes at most one request,
    keeps the narrative, and is not left loading; afterwards either a
    diagram that starts with "sequenceDiagram" is shown and no error, or no
    diagram and no notes are shown. *)
Theorem X12_generate_settles
  (net : jsstring -> fetch_init -> outcome response) (st : Page.state) :
  let st' := snd (Page.generate net st) in
  (List.length (fst (Page.generate net st)) <= 1)%nat /\
  Page.flow st' = Page.flow st /\
  Page.loading st' = false /\
  ((startsWith (Page.mermaidCode st') GRAMMAR_MARKER = true /\
    Page.error st' = []) \/
   (Page.mermaidCode st' = [] /\ Page.notes st' = [])).
Proof.
  unfold Page.generate.
  destruct (attempt_yields net (Page.flow st)) as [Hcalls Hres].
  destruct (Page.attempt net (Page.flow st)) as [calls [[m n]|e]];
    cbn [fst snd] in *; cbn; repeat split; auto.
Qed.

Lemma failure_shown
  (net : jsstring -> fetch_init -> outcome response) (st : Page.state)
  (r : response) (t : jsstring) :
  trim (Page.flow st) <> [] ->
  net Page.API_FLOW (Page.api_request (Page.flow st)) = Returned r ->
  ok r = false ->
  text r = Returned t ->
  Page.generate net st
  = ([Fetch Page.API_FLOW (Page.api_request (Page.flow st))],
     {| Page.flow := Page.flow st; Page.mermaidCode := [];
        Page.notes := []; Page.loading := false;
        Page.error := cleanApiError t |}).
Proof.
  intros Hflow Hnet Hok Htext. unfold Page.generate, Page.attempt.
  destruct (truthy (VStr (trim (Page.flow st)))) eqn:Hblank;
    [|now apply blank_is_empty in Hblank].
  cbn [negb]. rewrite Hnet. unfold bind at 1. rewrite Hok. cbn [negb].
  rewrite Htext. now run.
Qed.

(** X13.  When the endpoint answers with a status outside 200..299 and
    the body text [t], [generate] shows [cleanApiError t] and neither
    diagram nor notes. *)
Theorem X13_failure_body_is_cleaned
  (net : jsstring -> fetch_init -> outcome response) (st : Page.state)
  (r : response) (t : jsstring) :
  trim (Page.flow st) <> [] ->
  net Page.API_FLOW (Page.api_request (Page.flow st)) = Returned r ->
  ok r = false ->
  text r = Returned t ->
  Page.generate net st
  = ([Fetch Page.API_FLOW (Page.api_request (Page.flow st))],
     {| Page.flow := Page.flow st; Page.mermaidCode := [];
        Page.notes := []; Page.loading := false;
        Page.error := cleanApiError t |}).
Proof. apply failure_shown. Qed.

Lemma X13_failure_body_is_cleaned_witness :
  let r := {| status := 500;
              text := Returned (jtext "{'error':'Model did not return valid JSON.'}");
              json := Threw (Page.Error []) |} in
  let st := {| Page.flow := narrative; Page.mermaidCode := []; Page.notes := [];
               Page.loading := false; Page.error := [] |} in
  Page.error (snd (Page.generate (fun _ _ => Returned r) st)) = MSG_RENDER.
Proof.
  intros r st.
  rewrite (X13_failure_body_is_cleaned (fun _ _ => Returned r) st r
             (jtext "{'error':'Model did not return valid JSON.'}"));
    [reflexivity | discriminate | reflexivity | reflexivity | reflexivity].
Defined.

(** X14.  The SVG text written by [downloadSVG] always starts with
    "<?xml": a serialized element that starts with "<?xml" is kept as it
    is, any other gets the XML declaration and a line feed in front, so
    preparing a prepared text changes nothing. *)
Theorem X14_svg_file_has_prolog (serialized : jsstring) :
  (startsWith serialized (lit "<?xml") = true ->
   Page.svg_file serialized = serialized) /\
  (startsWith serialized (lit "<?xml") = false ->
   Page.svg_file serialized
   = jtext "<?xml version='1.0' standalone='no'?>" ++ [10] ++ serialized) /\
  startsWith (Page.svg_file serialized) (lit "<?xml") = true /\
  Page.svg_file (Page.svg_file serialized) = Page.svg_file serialized.
Proof.
  unfold Page.svg_file.
  destruct (startsWith serialized (lit "<?xml")) eqn:H; cbn [negb].
  - rewrite H. cbn [negb].
    split; [trivial | split; [discriminate | split; trivial]].
  - assert (Hp : startsWith (Page.XML_PROLOG ++ serialized) (lit "<?xml") = true)
      by reflexivity.
    rewrite Hp. cbn [negb].
    split; [discriminate | split; [|split; trivial]].
    intros _. unfold Page.XML_PROLOG. now rewrite <- app_assoc.
Qed.

(** An element serialized without a declaration, and one with it. *)
Lemma X14_svg_file_has_prolog_witness :
  Page.svg_file (lit "<svg></svg>")
  = jtext "<?xml version='1.0' standalone='no'?>" ++ [10] ++ lit "<svg></svg>"
  /\
  Page.svg_file (lit "<?xml?><svg></svg>") = lit "<?xml?><svg></svg>".
Proof.
  split.
  - destruct (X14_svg_file_has_prolog (lit "<svg></svg>")) as (_ & H & _).
    apply H. reflexivity.
  - destruct (X14_svg_file_has_prolog (lit "<?xml?><svg></svg>")) as (H & _).
    apply H. reflexivity.
Defined.

(* ================================================================== *)
(** * JSON.stringify followed by JSON.parse *)

Lemma hex_value_digit (d : N) : d < 16 -> hex_value (hex_digit d) = Some d.
Proof.
  intros H.
  assert (Hd : d = 0 \/ d = 1 \/ d = 2 \/ d = 3 \/ d = 4 \/ d = 5 \/ d = 6 \/
               d = 7 \/ d = 8 \/ d = 9 \/ d = 10 \/ d = 11 \/ d = 12 \/
               d = 13 \/ d = 14 \/ d = 15) by lia.
  repeat (destruct Hd as [-> | Hd]; [reflexivity|]). now subst.
Qed.

Lemma hex4_digits (c : N) :
  c < 65536 ->
  hex4 (hex_digit (c / 4096)) (hex_digit ((c / 256) mod 16))
       (hex_digit ((c / 16) mod 16)) (hex_digit (c mod 16)) = Some c.
Proof.
  intros H. unfold hex4.
  rewrite !hex_value_digit;
    try (apply N.mod_lt; discriminate);
    try (apply N.Div0.div_lt_upper_bound; lia).
  f_equal.
  pose proof (N.div_mod c 16 ltac:(discriminate)) as H1.
  pose proof (N.div_mod (c / 16) 16 ltac:(discriminate)) as H2.
  pose proof (N.div_mod (c / 16 / 16) 16 ltac:(discriminate)) as H3.
  replace (c / 256) with (c / 16 / 16)
    by (rewrite N.Div0.div_div; reflexivity).
  replace (c / 4096) with (c / 16 / 16 / 16)
    by (rewrite !N.Div0.div_div; reflexivity).
  lia.
Qed.

Ltac to_prop :=
  repeat match goal with
         | H : (_ && _) = true |- _ => apply andb_true_iff in H; destruct H
         | H : (_ <=? _) = true |- _ => apply N.leb_le in H
         | H : (_ <=? _) = false |- _ => apply N.leb_gt in H
         | H : (_ <? _) = true |- _ => apply N.ltb_lt in H
         | H : (_ <? _) = false |- _ => apply N.ltb_ge in H
         | H : (_ =? _) = true |- _ => apply N.eqb_eq in H
         | H : (_ =? _) = false |- _ => apply N.eqb_neq in H
         end.

Lemma parse_plain_unit (c : N) (tail acc : jsstring) :
  c <> 34 -> c <> 92 -> 32 <= c ->
  parse_string_body (c :: tail) acc = parse_string_body tail (c :: acc).
Proof.
  intros H1 H2 H3. cbn [parse_string_body].
  apply N.eqb_neq in H1, H2. apply N.ltb_ge in H3. now rewrite H1, H2, H3.
Qed.

Lemma parse_escaped_digits (h1 h2 h3 h4 u : N) (tail acc : jsstring) :
  hex4 h1 h2 h3 h4 = Some u ->
  parse_string_body (92 :: 117 :: h1 :: h2 :: h3 :: h4 :: tail) acc
  = parse_string_body tail (u :: acc).
Proof. intros H. cbn [parse_string_body N.eqb Pos.eqb]. now rewrite H. Qed.

Lemma parse_unicode_escape (c : N) (tail acc : jsstring) :
  c < 65536 ->
  parse_string_body (unicode_escape c ++ tail) acc
  = parse_string_body tail (c :: acc).
Proof.
  intros H. unfold unicode_escape. cbn [app].
  apply parse_escaped_digits, hex4_digits, H.
Qed.

Lemma parse_quote_unit (c : N) (tail acc : jsstring) :
  parse_string_body (quote_unit c ++ tail) acc
  = parse_string_body tail (c :: acc).
Proof.
  unfold quote_unit.
  repeat match goal with
         | |- context [if ?b then _ else _] =>
             destruct b eqn:?;
             [ to_prop; subst; try reflexivity |]
         end.
  - apply parse_unicode_escape. lia.
  - to_prop. now apply parse_plain_unit.
Qed.

(** What [QuoteJSONString] writes between the quotes, [parse_string_body]
    reads back. *)
Lemma parse_quoted (n : nat) :
  forall s tail acc,
    (List.length s <= n)%nat ->
    parse_string_body (quote_units s ++ 34 :: tail) acc
    = Some (rev acc ++ s, tail).
Proof.
  induction n as [|n IH]; intros s tail acc Hn.
  - destruct s; [|simpl in Hn; lia]. cbn. now rewrite app_nil_r.
  - destruct s as [|c s]; [cbn; now rewrite app_nil_r|].
    simpl in Hn. cbn [quote_units].
    destruct (is_high_surrogate c) eqn:Hh.
    + unfold is_high_surrogate in Hh. to_prop.
      destruct s as [|d s'].
      * rewrite parse_unicode_escape by lia. reflexivity.
      * destruct (is_low_surrogate d) eqn:Hl.
        -- unfold is_low_surrogate in Hl. to_prop. cbn [app].
           rewrite !parse_plain_unit by lia.
           rewrite IH by (simpl in Hn; lia).
           cbn [rev]. now rewrite <- !app_assoc.
        -- rewrite <- app_assoc, parse_unicode_escape by lia.
           rewrite IH by lia. cbn [rev]. now rewrite <- app_assoc.
    + destruct (is_low_surrogate c) eqn:Hl.
      * unfold is_low_surrogate in Hl. to_prop.
        rewrite <- app_assoc, parse_unicode_escape by lia.
        rewrite IH by lia. cbn [rev]. now rewrite <- app_assoc.
      * rewrite <- app_assoc, parse_quote_unit.
        rewrite IH by lia. cbn [rev]. now rewrite <- app_assoc.
Qed.

Lemma parse_QuoteJSONString (s tail : jsstring) :
  parse_string_body (quote_units s ++ 34 :: tail) [] = Some (s, tail).
Proof. apply (parse_quoted (List.length s)). lia. Qed.

Lemma next_cons (c : N) (tail : jsstring) :
  is_json_ws c = false -> next (c :: tail) = Some (c, tail).
Proof. intros H. unfold next. cbn [skip_ws]. now rewrite H. Qed.

Lemma parse_string_value (E : engine) (n : nat) (s tail : jsstring) :
  parse_value E (S n) (34 :: quote_units s ++ 34 :: tail)
  = Some (VStr s, tail).
Proof.
  cbn [parse_value]. rewrite next_cons by reflexivity.
  cbn [N.eqb Pos.eqb]. now rewrite parse_QuoteJSONString.
Qed.

Lemma member_text_shape (p : jsstring * jsstring) (tail : jsstring) :
  member_text p ++ tail
  = 34 :: quote_units (fst p) ++ 34 :: 58 :: 34 :: quote_units (snd p)
       ++ 34 :: tail.
Proof.
  unfold member_text, QuoteJSONString. change (lit ":") with [58].
  rewrite <- !app_assoc. cbn [app]. now rewrite <- ?app_assoc.
Qed.

(** One member, followed by a comma or by the closing brace. *)
Lemma parse_member (E : engine) (n : nat) (p : jsstring * jsstring)
  (c : N) (tail : jsstring) (acc : list (jsstring * value)) :
  is_json_ws c = false ->
  parse_members E (S (S n)) (member_text p ++ c :: tail) acc
  = if c =? 44
    then parse_members E (S n) tail (define (fst p) (VStr (snd p)) acc)
    else if c =? 125
         then Some (VObj (define (fst p) (VStr (snd p)) acc), tail)
         else None.
Proof.
  intros Hc. rewrite member_text_shape.
  cbn [parse_members]. rewrite next_cons by reflexivity.
  cbn [N.eqb Pos.eqb]. rewrite parse_QuoteJSONString.
  rewrite next_cons by reflexivity. cbn [N.eqb Pos.eqb].
  rewrite parse_string_value. now rewrite (next_cons c tail Hc).
Qed.

Lemma parse_members_flat (E : engine) :
  forall l p acc tail n,
    (2 * List.length l + 2 <= n)%nat ->
    parse_members E n
      (join (lit ",") (map member_text (p :: l)) ++ 125 :: tail) acc
    = Some (VObj (fold_left (fun a q => define (fst q) (VStr (snd q)) a)
                    (p :: l) acc),
            tail).
Proof.
  induction l as [|q l IH]; intros p acc tail n Hn.
  - destruct n as [|[|n]]; [simpl in Hn; lia | simpl in Hn; lia |].
    cbn [map join]. now rewrite parse_member.
  - destruct n as [|[|n]]; [simpl in Hn; lia | simpl in Hn; lia |].
    change (join (lit ",") (map member_text (p :: q :: l)))
      with (member_text p ++ lit "," ++ join (lit ",") (map member_text (q :: l))).
    change (lit ",") with [44] at 1. rewrite <- !app_assoc. cbn [app].
    rewrite parse_member by reflexivity. cbn [N.eqb Pos.eqb].
    rewrite IH by (simpl in Hn |- *; lia). reflexivity.
Qed.

Lemma enumeration_order_named {A} (l : list (jsstring * A)) :
  Forall (fun p => index_key (fst p) = None) l -> enumeration_order l = l.
Proof.
  intros H.
  assert (Hboth : indexed_entries l = [] /\ named_entries l = l).
  { induction H as [|[k x] l Hk _ [IH1 IH2]]; [split; reflexivity|].
    cbn [indexed_entries named_entries]. cbn [fst] in Hk. rewrite Hk.
    split; [exact IH1 | now f_equal]. }
  destruct Hboth as [H1 H2]. unfold enumeration_order. now rewrite H1, H2.
Qed.

Lemma rendered_string_members (l : list (jsstring * jsstring)) :
  rendered_members
    (map (fun p => (fst p, Some (QuoteJSONString (snd p)))) l)
  = map member_text l.
Proof.
  induction l as [|[k s] l IH]; [reflexivity|].
  cbn [map rendered_members fst snd]. now rewrite IH.
Qed.

(** The text of an object of strings whose keys are no array indices. *)
Lemma body_text_string_fields (l : list (jsstring * jsstring)) :
  Forall (fun p => index_key (fst p) = None) l ->
  body_text (VObj (string_fields l))
  = 123 :: join (lit ",") (map member_text l) ++ [125].
Proof.
  intros Hl. unfold body_text. cbn [JSON_stringify].
  match goal with
  | |- context [?f (string_fields l)] =>
      assert (Hf : forall l', f (string_fields l')
                   = map (fun p => (fst p, Some (QuoteJSONString (snd p)))) l')
  end.
  { induction l' as [|[k s] l' IH]; [reflexivity|].
    unfold string_fields in *. cbn [map fst snd]. now rewrite IH. }
  rewrite Hf, enumeration_order_named, rendered_string_members.
  - reflexivity.
  - clear Hf. induction Hl; constructor; auto.
Qed.

Lemma lookup_absent (k : jsstring) (acc : list (jsstring * value)) :
  ~ In k (map fst acc) -> lookup k acc = None.
Proof.
  induction acc as [|[k' v] acc IH]; [reflexivity|].
  cbn [map fst In lookup]. intros H.
  destruct (jsstring_eqb k k') eqn:Hk.
  - apply jsstring_eqb_eq in Hk. subst. tauto.
  - apply IH. tauto.
Qed.

Lemma define_fresh (k : jsstring) (v : value) (acc : list (jsstring * value)) :
  ~ In k (map fst acc) -> define k v acc = acc ++ [(k, v)].
Proof.
  induction acc as [|[k' v'] acc IH]; [reflexivity|].
  cbn [map fst In define]. intros H.
  destruct (jsstring_eqb k k') eqn:Hk.
  - apply jsstring_eqb_eq in Hk. subst. tauto.
  - cbn [app]. f_equal. apply IH. tauto.
Qed.

Lemma define_all_fresh (l : list (jsstring * jsstring)) :
  forall acc,
    NoDup (map fst acc ++ map fst l) ->
    fold_left (fun a q => define (fst q) (VStr (snd q)) a) l acc
    = acc ++ string_fields l.
Proof.
  induction l as [|[k s] l IH]; intros acc Hnd.
  - cbn. now rewrite app_nil_r.
  - cbn [fold_left fst snd]. cbn [map fst] in Hnd.
    rewrite define_fresh.
    + rewrite IH.
      * now rewrite <- app_assoc.
      * rewrite map_app. cbn [map fst]. rewrite <- app_assoc. exact Hnd.
    + apply NoDup_remove_2 in Hnd. intros Hin. apply Hnd.
      apply in_or_app. now left.
Qed.

(** An object of strings with distinct keys, none an array index, is read
    back from its text as it was. *)
Lemma flat_object_round_trip (E : engine) (l : list (jsstring * jsstring)) :
  NoDup (map fst l) ->
  Forall (fun p => index_key (fst p) = None) l ->
  parse_text E (body_text (VObj (string_fields l)))
  = Some (VObj (string_fields l)).
Proof.
  intros Hnd Hl. rewrite (body_text_string_fields l Hl).
  destruct l as [|p l]; [reflexivity|].
  apply (parse_text_complete E (S (2 * List.length l + 2)) _ _ []);
    [|reflexivity].
  cbn [parse_value]. rewrite next_cons by reflexivity. cbn [N.eqb Pos.eqb].
  assert (Hhead : exists tail,
             join (lit ",") (map member_text (p :: l)) ++ [125] = 34 :: tail).
  { destruct l; cbn [map join]; rewrite ?member_text_shape;
      unfold member_text, QuoteJSONString; cbn [app]; now eexists. }
  destruct Hhead as [tail Hhead]. rewrite Hhead at 1.
  rewrite next_cons by reflexivity. cbn [N.eqb Pos.eqb].
  rewrite parse_members_flat by lia.
  now rewrite (define_all_fresh (p :: l) []).
Qed.

(* ================================================================== *)
(** * The page and the endpoint together *)

(** The request that [generate] sends arrives as the object [{ flow }]. *)
Lemma request_arrives (site : world) (flow : jsstring) :
  req_json (arriving site (Page.api_request flow))
  = Returned (flow_request flow).
Proof.
  unfold arriving, with_request, body_json. cbn [req_json Page.api_request body].
  pose proof (flat_object_round_trip (js_engine site) [(lit "flow", flow)]) as H.
  cbn [string_fields map fst snd] in H.
  now rewrite H by (repeat constructor; cbn; intuition discriminate).
Qed.

Lemma arriving_accepted (site : world) (flow : jsstring) :
  flow_unusable (VStr flow) = false ->
  accepted (arriving site (Page.api_request flow)) flow.
Proof.
  intros H. exists (flow_request flow).
  rewrite request_arrives. repeat split. exact H.
Qed.

(** The diagram that the endpoint sends is the one [r.json()] returns. *)
Lemma diagram_arrives (E : engine) (mermaid notes : jsstring) :
  json (served E (diagram mermaid notes))
  = Returned (diagram_body mermaid notes).
Proof.
  unfold served, body_json. cbn [json diagram payload]. unfold diagram_body.
  pose proof (flat_object_round_trip E
                [(lit "mermaid", mermaid); (lit "notes", notes)]) as H.
  cbn [string_fields map fst snd] in H.
  now rewrite H by (repeat constructor; cbn; intuition discriminate).
Qed.

Lemma body_text_object (props : list (jsstring * value)) :
  exists rest, body_text (VObj props) = 123 :: rest.
Proof. unfold body_text. cbn [JSON_stringify]. now eexists. Qed.

Lemma trimStart_keeps_last (l : jsstring) (c : N) :
  is_white_space c = false -> exists l', trimStart (l ++ [c]) = l' ++ [c].
Proof.
  intros Hc. induction l as [|x l IH]; cbn [app trimStart].
  - rewrite Hc. now exists [].
  - destruct (is_white_space x); [exact IH | now exists (x :: l)].
Qed.

Lemma trim_keeps_head (c : N) (rest : jsstring) :
  is_white_space c = false -> exists rest', trim (c :: rest) = c :: rest'.
Proof.
  intros Hc. unfold trim, trimEnd. cbn [trimStart]. rewrite Hc. cbn [rev].
  destruct (trimStart_keeps_last (rev rest) c Hc) as [l' ->].
  rewrite rev_app_distr. now eexists.
Qed.

(** The text of a body that is an object is never shown as it is. *)
Lemma object_body_cleaned (props : list (jsstring * value)) :
  let shown := cleanApiError (body_text (VObj props)) in
  shown = MSG_QUOTA \/ shown = MSG_RENDER \/ shown = MSG_UNEXPECTED.
Proof.
  destruct (body_text_object props) as [rest Hrest].
  apply brace_is_cleaned. rewrite Hrest.
  now destruct (trim_keeps_head 123 rest eq_refl) as [rest' ->].
Qed.

Lemma page_shows_diagram (POST : world -> list call * http_response)
  (site : world) (E : engine) (st : Page.state) (mermaid notes : jsstring) :
  trim (Page.flow st) <> [] ->
  snd (POST (arriving site (Page.api_request (Page.flow st))))
  = diagram mermaid notes ->
  startsWith mermaid GRAMMAR_MARKER = true ->
  Page.generate (site_fetch POST site E) st
  = ([Fetch Page.API_FLOW (Page.api_request (Page.flow st))],
     {| Page.flow := Page.flow st; Page.mermaidCode := mermaid;
        Page.notes := notes; Page.loading := false; Page.error := [] |}).
Proof.
  intros Hflow Hr Hstart. unfold Page.generate, Page.attempt.
  destruct (truthy (VStr (trim (Page.flow st)))) eqn:Hblank;
    [|now apply blank_is_empty in Hblank].
  cbn [negb]. unfold site_fetch. rewrite Hr. unfold bind at 1.
  change (ok (served E (diagram mermaid notes))) with true. cbn [negb].
  rewrite diagram_arrives. run. cbv zeta.
  change (string_or_empty
            (get (nullish_coalesce (diagram_body mermaid notes) (VObj []))
               (lit "mermaid"))) with mermaid.
  now rewrite Hstart.
Qed.

Lemma page_shows_failure (POST : world -> list call * http_response)
  (site : world) (E : engine) (st : Page.state) :
  trim (Page.flow st) <> [] ->
  is_2xx (status_code
            (snd (POST (arriving site (Page.api_request (Page.flow st))))))
  = false ->
  Page.generate (site_fetch POST site E) st
  = ([Fetch Page.API_FLOW (Page.api_request (Page.flow st))],
     only_error (Page.flow st)
       (cleanApiError
          (body_text
             (payload
                (snd (POST (arriving site
                              (Page.api_request (Page.flow st))))))))).
Proof.
  intros Hflow Hst.
  now apply (failure_shown (site_fetch POST site E) st
               (served E (snd (POST (arriving site
                                       (Page.api_request (Page.flow st))))))).
Qed.

Lemma payload_is_object (w : world) :
  (exists props, payload (snd (RouteTs.POST w)) = VObj props) /\
  (exists props, payload (snd (Part001.POST w)) = VObj props) /\
  (exists props, payload (snd (Part002.POST w)) = VObj props).
Proof.
  assert (Hh : forall r, handled r -> exists props, payload r = VObj props).
  { intros r [(_ & m & n & ->) | (_ & m & ->)]; now eexists. }
  destruct (bare_failures w) as [Hts H001].
  split; [now apply Hh | split; [now apply Hh|]].
  destruct (Part002_shapes w) as [H | [detail ->]];
    [now apply Hh | now eexists].
Qed.

Lemma shows_answer_of_ends (POST : world -> list call * http_response)
  (reaches : world -> jsstring -> Prop) (upstream : world -> jsstring -> call)
  (site : world) (E : engine) (st : Page.state) :
  (forall w, ends POST reaches upstream w) ->
  (forall w, exists props, payload (snd (POST w)) = VObj props) ->
  trim (Page.flow st) <> [] ->
  shows_answer POST site E st.
Proof.
  intros Hends Hobj Hflow. unfold shows_answer.
  set (w := arriving site (Page.api_request (Page.flow st))).
  destruct (ends_status _ _ _ w (Hends w)) as [[H200 | Hfail] _].
  - left.
    destruct (ends_success _ _ _ w (Hends w) H200) as (f & m & n & _ & Hr & Hm).
    exists m, n. split; [now rewrite Hr|].
    rewrite (page_shows_diagram POST site E st m n Hflow);
      [reflexivity | fold w; now rewrite Hr | exact Hm].
  - right.
    assert (H2xx : is_2xx (status_code (snd (POST w))) = false)
      by (destruct Hfail as [-> | ->]; reflexivity).
    rewrite (page_shows_failure POST site E st Hflow H2xx). fold w.
    destruct (Hobj w) as [props ->]. cbn.
    repeat split; [destruct Hfail as [-> | ->]; discriminate|].
    apply object_body_cleaned.
Qed.

(** X15.  Against any of the three revisions the page never shows its own
    fallback texts: for a narrative that is not blank it ends either with
    exactly the diagram and notes of the endpoint's 200 answer and no
    error, or, for any other answer, with no diagram and one of the three
    fixed messages of [cleanApiError], never the raw body. *)
Theorem X15_page_shows_answer (site : world) (E : engine) (st : Page.state) :
  trim (Page.flow st) <> [] ->
  shows_answer RouteTs.POST site E st /\
  shows_answer Part001.POST site E st /\
  shows_answer Part002.POST site E st.
Proof.
  intros Hflow. split; [|split].
  - apply (shows_answer_of_ends _ _ _ _ _ _ RouteTs_ends); trivial.
    intros w. apply payload_is_object.
  - apply (shows_answer_of_ends _ _ _ _ _ _ Part001_ends); trivial.
    intros w. apply payload_is_object.
  - apply (shows_answer_of_ends _ _ _ _ _ _ Part002_ends); trivial.
    intros w. apply payload_is_object.
Qed.

Lemma X15_page_shows_answer_witness :
  shows_answer RouteTs.POST (service 200 completion_of_diagram) v8
    {| Page.flow := narrative; Page.mermaidCode := []; Page.notes := [];
       Page.loading := false; Page.error := [] |}.
Proof.
  apply (X15_page_shows_answer (service 200 completion_of_diagram) v8
           {| Page.flow := narrative; Page.mermaidCode := [];
              Page.notes := []; Page.loading := false; Page.error := [] |}).
  discriminate.
Defined.

Lemma arriving_unusable (site : world) (flow : jsstring) :
  flow_unusable (VStr flow) = true ->
  RouteTs.POST (arriving site (Page.api_request flow)) = ([], rejection) /\
  (env_missing (OPENAI_API_KEY site) = false ->
   Part001.POST (arriving site (Page.api_request flow)) = ([], rejection) /\
   Part002.POST (arriving site (Page.api_request flow)) = ([], rejection)).
Proof.
  intros Hflow.
  pose proof (request_arrives site flow) as Hreq.
  split; [|intros Hkey; split].
  - now apply RouteTs_rejects with (flow_request flow).
  - apply Part001_rejects; trivial;
      unfold Part001.request_or_empty; now rewrite Hreq.
  - apply Part002_rejects; trivial;
      unfold Part002.request_or_empty; now rewrite Hreq.
Qed.

(** X16.  The page sends any narrative that is not blank, the endpoint
    refuses one shorter than 10 once trimmed, and the page then shows
    "Server returned an unexpected response. Please try again.": the
    endpoint's "Please provide a longer narrative." never reaches the
    user. *)
Theorem X16_validation_message_masked (site : world) (E : engine)
  (st : Page.state) :
  trim (Page.flow st) <> [] ->
  flow_unusable (VStr (Page.flow st)) = true ->
  let shown := ([Fetch Page.API_FLOW (Page.api_request (Page.flow st))],
                only_error (Page.flow st) MSG_UNEXPECTED) in
  Page.generate (site_fetch RouteTs.POST site E) st = shown /\
  (env_missing (OPENAI_API_KEY site) = false ->
   Page.generate (site_fetch Part001.POST site E) st = shown /\
   Page.generate (site_fetch Part002.POST site E) st = shown).
Proof.
  intros Hflow Hshort shown.
  destruct (arriving_unusable site (Page.flow st) Hshort) as [Hts Hsib].
  split; [|intros Hkey; destruct (Hsib Hkey) as [H001 H002]; split].
  - rewrite page_shows_failure by (trivial; now rewrite Hts). now rewrite Hts.
  - rewrite page_shows_failure by (trivial; now rewrite H001). now rewrite H001.
  - rewrite page_shows_failure by (trivial; now rewrite H002). now rewrite H002.
Qed.

Lemma X16_validation_message_masked_witness :
  Page.error
    (snd (Page.generate (site_fetch RouteTs.POST no_upstream v8)
            {| Page.flow := nine; Page.mermaidCode := []; Page.notes := [];
               Page.loading := false; Page.error := [] |}))
  = MSG_UNEXPECTED.
Proof.
  destruct (X16_validation_message_masked no_upstream v8
              {| Page.flow := nine; Page.mermaidCode := []; Page.notes := [];
                 Page.loading := false; Page.error := [] |}) as [H _];
    [discriminate | reflexivity |].
  now rewrite H.
Defined.

(** ** The quota refusal, from the service to the user *)

Lemma startsWith_split (s p : jsstring) :
  startsWith s p = true -> exists b, s = p ++ b.
Proof.
  revert s. induction p as [|x p IH]; intros s H; [now exists s|].
  destruct s as [|c s]; [discriminate|]. cbn [startsWith] in H.
  apply andb_true_iff in H. destruct H as [Hc Hs].
  apply N.eqb_eq in Hc. subst. destruct (IH s Hs) as [b ->]. now exists b.
Qed.

Lemma includes_split (s sub : jsstring) :
  includes s sub = true -> exists a b, s = a ++ sub ++ b.
Proof.
  induction s as [|c s IH]; cbn [includes]; intros H;
    apply orb_true_iff in H; destruct H as [H | H].
  - destruct (startsWith_split _ _ H) as [b ->]. now exists [], b.
  - discriminate.
  - destruct (startsWith_split _ _ H) as [b Hb]. exists [], b. exact Hb.
  - destruct (IH H) as (a & b & ->). now exists (c :: a), b.
Qed.

Lemma quote_plain (c : N) (s : jsstring) :
  is_plain c = true -> quote_units (c :: s) = c :: quote_units s.
Proof.
  unfold is_plain. intros H.
  repeat (apply andb_true_iff in H; destruct H as [H ?]).
  cbn [quote_units].
  destruct (is_high_surrogate c); [discriminate|].
  destruct (is_low_surrogate c); [discriminate|].
  unfold quote_unit.
  repeat match goal with
         | |- context [if ?b then _ else _] =>
             destruct b eqn:?; [exfalso; to_prop; subst; try discriminate; lia|]
         end.
  reflexivity.
Qed.

Lemma quote_plain_prefix (sub b : jsstring) :
  forallb is_plain sub = true -> quote_units (sub ++ b) = sub ++ quote_units b.
Proof.
  induction sub as [|c sub IH]; [reflexivity|]. cbn [forallb app].
  intros H. apply andb_true_iff in H. destruct H as [Hc Hsub].
  now rewrite quote_plain, IH.
Qed.

(** Quoting does not look across a unit that is no low surrogate. *)
Lemma quote_units_app (n : nat) :
  forall a c s,
    (List.length a <= n)%nat ->
    is_low_surrogate c = false ->
    quote_units (a ++ c :: s) = quote_units a ++ quote_units (c :: s).
Proof.
  induction n as [|n IH]; intros a c s Hn Hc.
  - destruct a; [reflexivity | simpl in Hn; lia].
  - destruct a as [|x a]; [reflexivity|]. simpl in Hn.
    remember (quote_units (c :: s)) as q eqn:Hq.
    cbn [app]. cbn [quote_units].
    destruct (is_high_surrogate x).
    + destruct a as [|d a]; cbn [app].
      * rewrite Hc. now subst q.
      * destruct (is_low_surrogate d).
        -- rewrite IH by (simpl in Hn; lia || trivial). now subst q.
        -- change (d :: a ++ c :: s) with ((d :: a) ++ c :: s).
           rewrite IH by (simpl in *; lia || trivial).
           subst q. now rewrite app_assoc.
    + destruct (is_low_surrogate x);
        rewrite IH by (lia || trivial); subst q; now rewrite app_assoc.
Qed.

Lemma quoted_includes (t sub : jsstring) :
  sub <> [] ->
  forallb is_plain sub = true ->
  includes t sub = true ->
  includes (quote_units t) sub = true.
Proof.
  intros Hne Hplain H. destruct (includes_split _ _ H) as (a & b & ->).
  destruct sub as [|c sub]; [congruence|].
  assert (Hc : is_low_surrogate c = false).
  { cbn [forallb] in Hplain. apply andb_true_iff in Hplain.
    destruct Hplain as [Hc _]. unfold is_plain in Hc.
    repeat (apply andb_true_iff in Hc; destruct Hc as [Hc ?]).
    now destruct (is_low_surrogate c). }
  change ((c :: sub) ++ b) with (c :: sub ++ b).
  rewrite (quote_units_app (List.length a)) by (lia || trivial).
  change (c :: sub ++ b) with ((c :: sub) ++ b).
  rewrite quote_plain_prefix by exact Hplain.
  apply includes_app.
Qed.

Lemma error_body_text (t : jsstring) :
  body_text (error_body t) = jtext "{'error':'" ++ quote_units t ++ jtext "'}".
Proof.
  pose proof (body_text_string_fields [(lit "error", t)]) as H.
  cbn [string_fields map fst snd] in H.
  unfold error_body. rewrite H by (repeat constructor).
  cbn [map join]. now rewrite member_text_shape.
Qed.

Lemma error_body_includes (t sub : jsstring) :
  sub <> [] ->
  forallb is_plain sub = true ->
  includes t sub = true ->
  includes (body_text (error_body t)) sub = true.
Proof.
  intros Hne Hplain H. rewrite error_body_text.
  pose proof (quoted_includes t sub Hne Hplain H) as Hq.
  destruct (includes_split _ _ Hq) as (a & b & ->).
  rewrite <- !app_assoc, app_assoc. apply includes_app.
Qed.

Lemma RouteTs_refused (w : world) (f : jsstring) (resp : response)
  (t : jsstring) :
  accepted w f ->
  refuses w (RouteTs.request_init w f) resp t ->
  RouteTs.POST w = ([RouteTs_call w f], server_error t).
Proof.
  intros Hacc (Hfetch & Hok & Htext).
  enter_RouteTs Hacc. rewrite Hfetch, try_catch_called, Hok. cbn [negb].
  rewrite Htext. now run.
Qed.

Lemma Part001_refused (w : world) (f : jsstring) (resp : response)
  (t : jsstring) :
  admitted w f ->
  refuses w (Part001.request_init w f) resp t ->
  Part001.POST w
  = ([Part001_call w f], server_error (Part001.upstream_error resp t)).
Proof.
  intros [Hkey Hacc] (Hfetch & Hok & Htext).
  enter_Part001 Hkey Hacc. rewrite Hfetch, try_catch_called, Hok.
  cbn [negb]. rewrite Htext. now run.
Qed.

Lemma accepted_not_blank (f : jsstring) :
  flow_unusable (VStr f) = false -> trim f <> [].
Proof.
  cbn [flow_unusable]. intros H Hblank. rewrite Hblank in H. discriminate.
Qed.

Lemma includes_after (p t sub : jsstring) :
  includes t sub = true -> includes (p ++ t) sub = true.
Proof.
  intros H. induction p as [|c p IH]; [exact H|].
  cbn [app includes]. rewrite IH. apply orb_true_r.
Qed.

Lemma quota_shown (POST : world -> list call * http_response)
  (site : world) (E : engine) (st : Page.state) (calls : list call)
  (t : jsstring) :
  trim (Page.flow st) <> [] ->
  POST (arriving site (Page.api_request (Page.flow st)))
  = (calls, server_error t) ->
  includes t (lit "insufficient_quota") = true ->
  Page.generate (site_fetch POST site E) st
  = ([Fetch Page.API_FLOW (Page.api_request (Page.flow st))],
     only_error (Page.flow st) MSG_QUOTA).
Proof.
  intros Hflow HPOST Hquota.
  rewrite page_shows_failure by (trivial; now rewrite HPOST).
  rewrite HPOST. cbn [snd server_error payload].
  unfold cleanApiError.
  now rewrite (error_body_includes t (lit "insufficient_quota"))
    by (trivial; discriminate).
Qed.

(** X17.  When the text-generation service refuses a call with a body
    that mentions insufficient_quota, the user of the page reads "API
    quota unavailable. Add billing or switch to a key with credits.": the
    marker survives route.ts and part_001, the JSON encoding of their
    answer, and is found by [cleanApiError]. *)
Theorem X17_quota_refusal_reaches_the_user (site : world) (E : engine)
  (st : Page.state) (resp : response) (t : jsstring) :
  flow_unusable (VStr (Page.flow st)) = false ->
  includes t (lit "insufficient_quota") = true ->
  let shown := ([Fetch Page.API_FLOW (Page.api_request (Page.flow st))],
                only_error (Page.flow st) MSG_QUOTA) in
  (refuses site (RouteTs.request_init site (Page.flow st)) resp t ->
   Page.generate (site_fetch RouteTs.POST site E) st = shown)
  /\
  (env_missing (OPENAI_API_KEY site) = false ->
   refuses site (Part001.request_init site (Page.flow st)) resp t ->
   Page.generate (site_fetch Part001.POST site E) st = shown).
Proof.
  intros Hflow Hquota shown.
  pose proof (accepted_not_blank _ Hflow) as Hblank.
  pose proof (arriving_accepted site _ Hflow) as Hacc.
  split.
  - intros Href.
    eapply (quota_shown RouteTs.POST site E st); [exact Hblank | | exact Hquota].
    exact (RouteTs_refused (arriving site (Page.api_request (Page.flow st)))
             (Page.flow st) resp t Hacc Href).
  - intros Hkey Href.
    eapply (quota_shown Part001.POST site E st); [exact Hblank | |].
    + exact (Part001_refused (arriving site (Page.api_request (Page.flow st)))
               (Page.flow st) resp t (conj Hkey Hacc) Href).
    + unfold Part001.upstream_error. rewrite !app_assoc.
      now apply includes_after.
Qed.

Lemma X17_quota_refusal_reaches_the_user_witness :
  let t := jtext "{'error':{'code':'insufficient_quota'}}" in
  let st := {| Page.flow := narrative; Page.mermaidCode := [];
               Page.notes := []; Page.loading := false; Page.error := [] |} in
  Page.error (snd (Page.generate (site_fetch RouteTs.POST (service 429 t) v8) st))
  = MSG_QUOTA.
Proof.
  intros t st.
  destruct (X17_quota_refusal_reaches_the_user (service 429 t) v8 st
              {| status := 429; text := Returned t; json := body_json v8 t |} t)
    as [H _]; [reflexivity | reflexivity |].
  rewrite H; [reflexivity | repeat split].
Defined.

(* ================================================================== *)
(** * unnamed/part_000 *)

Lemma bind_called {A B} (c : call) (a : A) (k : A -> js B) :
  bind ([c], Returned a) k = (c :: fst (k a), snd (k a)).
Proof. unfold bind. now destruct (k a). Qed.

(** X18.  [handleGenerate] has no check of its own on the narrative: it
    always sends exactly one request, even for an empty input.  However
    the request ends it keeps the input, is not left loading, and shows
    either no error, or an error and neither diagram nor notes. *)
Theorem X18_handleGenerate_settles (E : engine)
  (net : jsstring -> fetch_init -> outcome response) (st : Part000.state) :
  let st' := snd (Part000.handleGenerate E net st) in
  fst (Part000.handleGenerate E net st)
  = [Fetch (lit "/api/flow") (Part000.api_request (Part000.inputValue st))] /\
  Part000.inputValue st' = Part000.inputValue st /\
  Part000.loading st' = false /\
  (Part000.errorMsg st' = VStr [] \/
   (Part000.diagram st' = VStr [] /\ Part000.notes st' = VStr [])).
Proof.
  unfold Part000.handleGenerate, Part000.attempt.
  match goal with
  | |- context [bind ([?c], ?o) ?k] =>
      destruct (called_then_yields (fun _ : Part000.shown => True) c o k)
        as [Hcalls _]
  end.
  - intros res. apply yields_bind; [reflexivity|]. intros raw.
    destruct (negb (ok res)); [split; [reflexivity | exact I]|].
    apply yields_bind.
    + unfold JSON_parse_or_throw. now destruct (JSON_parse _ _).
    + intros data. split; [reflexivity | exact I].
  - destruct (bind _ _) as [calls [[msg | d n] | e]]; cbn [fst snd] in *;
      subst calls; cbn; repeat split; auto.
Qed.

(** The error body that the endpoint sends is the one [JSON.parse] makes
    of the response text. *)
Lemma error_arrives (E : engine) (message : jsstring) :
  JSON_parse E (VStr (body_text (error_body message)))
  = Some (error_body message).
Proof.
  unfold JSON_parse. cbn [ToString]. unfold error_body.
  pose proof (flat_object_round_trip E [(lit "error", message)]) as H.
  cbn [string_fields map fst snd] in H.
  now rewrite H by (repeat constructor; cbn; intuition discriminate).
Qed.

Lemma diagram_text_arrives (E : engine) (mermaid notes : jsstring) :
  JSON_parse E (VStr (body_text (diagram_body mermaid notes)))
  = Some (diagram_body mermaid notes).
Proof.
  unfold JSON_parse. cbn [ToString]. unfold diagram_body.
  pose proof (flat_object_round_trip E
                [(lit "mermaid", mermaid); (lit "notes", notes)]) as H.
  cbn [string_fields map fst snd] in H.
  now rewrite H by (repeat constructor; cbn; intuition discriminate).
Qed.

Lemma part000_failure (POST : world -> list call * http_response)
  (site : world) (E : engine) (st : Part000.state) (message : jsstring) :
  let r := snd (POST (arriving site
                        (Part000.api_request (Part000.inputValue st)))) in
  is_2xx (status_code r) = false ->
  payload r = error_body message ->
  Part000.handleGenerate E (site_fetch POST site E) st
  = ([Fetch (lit "/api/flow") (Part000.api_request (Part000.inputValue st))],
     {| Part000.inputValue := Part000.inputValue st;
        Part000.diagram := VStr []; Part000.svg := [];
        Part000.notes := VStr []; Part000.loading := false;
        Part000.errorMsg :=
          VStr match message with
               | [] => Part000.api_failed (served E r)
               | _ :: _ => message
               end |}).
Proof.
  intros r Hst Hbody. unfold Part000.handleGenerate, Part000.attempt.
  unfold site_fetch. fold r. rewrite bind_called.
  change (ok (served E r)) with (is_2xx (status_code r)). rewrite Hst.
  cbn [negb text served]. run. cbn [fst snd].
  unfold Part000.failure_message. rewrite Hbody, error_arrives.
  change (opt_get (error_body message) (lit "error")) with (VStr message).
  change (get (error_body message) (lit "error")) with (VStr message).
  now destruct message.
Qed.

Lemma part000_success (POST : world -> list call * http_response)
  (site : world) (E : engine) (st : Part000.state) (mermaid notes : jsstring) :
  snd (POST (arriving site (Part000.api_request (Part000.inputValue st))))
  = diagram mermaid notes ->
  Part000.handleGenerate E (site_fetch POST site E) st
  = ([Fetch (lit "/api/flow") (Part000.api_request (Part000.inputValue st))],
     {| Part000.inputValue := Part000.inputValue st;
        Part000.diagram := VStr mermaid; Part000.svg := [];
        Part000.notes := VStr notes; Part000.loading := false;
        Part000.errorMsg := VStr [] |}).
Proof.
  intros Hr. unfold Part000.handleGenerate, Part000.attempt.
  unfold site_fetch. rewrite Hr, bind_called.
  change (ok (served E (diagram mermaid notes))) with true.
  cbn [negb text served diagram payload]. run.
  rewrite diagram_text_arrives. run. cbn [fst snd].
  change (opt_get (diagram_body mermaid notes) (lit "mermaid"))
    with (VStr mermaid).
  change (opt_get (diagram_body mermaid notes) (lit "notes"))
    with (VStr notes).
  now destruct mermaid.
Qed.

Lemma shows_verbatim_of_handled (POST : world -> list call * http_response)
  (site : world) (E : engine) (st : Part000.state) :
  (forall w, handled (snd (POST w))) -> shows_verbatim POST site E st.
Proof.
  intros Hh. unfold shows_verbatim.
  set (w := arriving site (Part000.api_request (Part000.inputValue st))).
  destruct (Hh w) as [(H200 & m & n & Hp) | (Hst & msg & Hp)].
  - left. exists m, n.
    assert (Hr : snd (POST w) = diagram m n).
    { destruct (snd (POST w)); cbn in *; now subst. }
    split; [exact Hr|].
    now rewrite (part000_success POST site E st m n Hr).
  - right. exists msg. split; [exact Hst | split; [exact Hp|]].
    now rewrite (part000_failure POST site E st msg Hst Hp).
Qed.

(** X19.  part_000 against route.ts or part_001: once [handleGenerate]
    has settled, a 200 answer is shown as its diagram and notes with no
    error, and any other answer as its error message word for word, with
    no diagram and no notes. *)
Theorem X19_part_000_shows_the_endpoint_message (site : world) (E : engine)
  (st : Part000.state) :
  shows_verbatim RouteTs.POST site E st /\
  shows_verbatim Part001.POST site E st.
Proof.
  split; apply shows_verbatim_of_handled; intros w;
    now destruct (bare_failures w).
Qed.

(** X20.  part_000 sends the narrative whatever it is; for one that the
    endpoint finds too short, the empty one included, the user is shown
    the endpoint's "Please provide a longer narrative."  (In part_001 and
    part_002 that is so once the API key is set.) *)
Theorem X20_part_000_shows_the_validation_message (site : world) (E : engine)
  (st : Part000.state) :
  flow_unusable (VStr (Part000.inputValue st)) = true ->
  let shown :=
    ([Fetch (lit "/api/flow") (Part000.api_request (Part000.inputValue st))],
     {| Part000.inputValue := Part000.inputValue st;
        Part000.diagram := VStr []; Part000.svg := [];
        Part000.notes := VStr []; Part000.loading := false;
        Part000.errorMsg := VStr MSG_LONGER_NARRATIVE |}) in
  Part000.handleGenerate E (site_fetch RouteTs.POST site E) st = shown /\
  (env_missing (OPENAI_API_KEY site) = false ->
   Part000.handleGenerate E (site_fetch Part001.POST site E) st = shown /\
   Part000.handleGenerate E (site_fetch Part002.POST site E) st = shown).
Proof.
  intros Hshort shown.
  destruct (arriving_unusable site (Part000.inputValue st) Hshort)
    as [Hts Hsib].
  change (Page.api_request (Part000.inputValue st))
    with (Part000.api_request (Part000.inputValue st)) in Hts, Hsib.
  split; [|intros Hkey; destruct (Hsib Hkey) as [H001 H002]; split].
  - rewrite (part000_failure RouteTs.POST site E st MSG_LONGER_NARRATIVE);
      rewrite ?Hts; reflexivity.
  - rewrite (part000_failure Part001.POST site E st MSG_LONGER_NARRATIVE);
      rewrite ?H001; reflexivity.
  - rewrite (part000_failure Part002.POST site E st MSG_LONGER_NARRATIVE);
      rewrite ?H002; reflexivity.
Qed.

Lemma X20_part_000_shows_the_validation_message_witness :
  Part000.errorMsg
    (snd (Part000.handleGenerate v8 (site_fetch RouteTs.POST no_upstream v8)
            {| Part000.inputValue := []; Part000.diagram := VStr [];
               Part000.svg := []; Part000.notes := VStr [];
               Part000.loading := false; Part000.errorMsg := VStr [] |}))
  = VStr MSG_LONGER_NARRATIVE.
Proof.
  destruct (X20_part_000_shows_the_validation_message no_upstream v8
              {| Part000.inputValue := []; Part000.diagram := VStr [];
                 Part000.svg := []; Part000.notes := VStr [];
                 Part000.loading := false; Part000.errorMsg := VStr [] |})
    as [H _]; [reflexivity|].
  now rewrite H.
Defined.

(* ================================================================== *)
(** * The explanation shown by part_000 *)

Lemma trimStart_length (s : jsstring) :
  (List.length (trimStart s) <= List.length s)%nat.
Proof.
  induction s as [|c s IH]; cbn [trimStart]; [lia|].
  destruct (is_white_space c); cbn [List.length]; lia.
Qed.

Lemma trimStart_fixed (s : jsstring) :
  trimStart s = s ->
  match s with [] => True | c :: _ => is_white_space c = false end.
Proof.
  destruct s as [|c s]; [trivial|]. cbn [trimStart].
  destruct (is_white_space c); [|trivial].
  intros H. pose proof (trimStart_length s) as Hl. rewrite H in Hl.
  cbn [List.length] in Hl. lia.
Qed.

Lemma trimStart_clean (c : N) (s : jsstring) :
  is_white_space c = false -> trimStart (c :: s) = c :: s.
Proof. intros H. cbn [trimStart]. now rewrite H. Qed.

(** A text that [trim] leaves alone starts and ends with a code unit that
    is not white space. *)
Lemma trim_fixed (s : jsstring) :
  s <> [] -> trim s = s ->
  (exists c rest, s = c :: rest /\ is_white_space c = false) /\
  (exists c rest, s = rest ++ [c] /\ is_white_space c = false).
Proof.
  intros Hne H.
  assert (Hstart : trimStart s = s).
  { unfold trim, trimEnd in H.
    pose proof (trimStart_length s) as H1.
    pose proof (trimStart_length (rev (trimStart s))) as H2.
    rewrite <- (length_rev (trimStart (rev (trimStart s)))) in H2.
    rewrite H, length_rev in H2.
    destruct s as [|c s]; [easy|]. cbn [trimStart] in *.
    destruct (is_white_space c); [|reflexivity].
    pose proof (trimStart_length s) as H3.
    cbn [List.length] in H2. lia. }
  split.
  - destruct s as [|c s]; [easy|]. exists c, s. split; [reflexivity|].
    exact (trimStart_fixed _ Hstart).
  - unfold trim in H. rewrite Hstart in H. unfold trimEnd in H.
    assert (Hrev : trimStart (rev s) = rev s)
      by (rewrite <- H at 2; now rewrite rev_involutive).
    apply trimStart_fixed in Hrev.
    destruct (rev s) as [|c r] eqn:Hr.
    + apply (f_equal (@rev N)) in Hr. rewrite rev_involutive in Hr. easy.
    + exists c, (rev r). split; [|exact Hrev].
      apply (f_equal (@rev N)) in Hr. now rewrite rev_involutive in Hr.
Qed.

Lemma trim_clean (c d : N) (s t : jsstring) :
  is_white_space c = false -> is_white_space d = false ->
  c :: s = t ++ [d] -> trim (c :: s) = c :: s.
Proof.
  intros Hc Hd Hs. unfold trim. rewrite (trimStart_clean c s Hc).
  unfold trimEnd. rewrite Hs, rev_app_distr. cbn [rev app].
  rewrite (trimStart_clean d (rev t) Hd). cbn [rev]. now rewrite rev_involutive.
Qed.

Lemma join_ends (sep : jsstring) (parts : list (jsstring)) (d : N) :
  parts <> [] ->
  (exists t, last parts [] = t ++ [d]) ->
  exists t, join sep parts = t ++ [d].
Proof.
  induction parts as [|p [|q parts] IH]; intros Hne [t Ht]; [easy| |].
  - now exists t.
  - destruct IH as [t' Ht']; [easy | now exists t |].
    exists (p ++ sep ++ t').
    change (join sep (p :: q :: parts)) with (p ++ sep ++ join sep (q :: parts)).
    rewrite Ht'. now rewrite <- !app_assoc.
Qed.

Lemma strip_plain (line rest : jsstring) :
  forallb (fun c => negb (Part000.is_line_terminator c)) line = true ->
  Part000.strip_bullets false (line ++ 10 :: rest)
  = line ++ 10 :: Part000.strip_bullets true rest.
Proof.
  induction line as [|c line IH]; intros H.
  - cbn [app]. now destruct rest.
  - cbn [forallb] in H. apply andb_true_iff in H. destruct H as [Hc Hl].
    apply negb_true_iff in Hc.
    cbn [app]. rewrite <- (IH Hl).
    destruct (line ++ 10 :: rest) as [|d r] eqn:Hd;
      [now destruct line|].
    cbn [Part000.strip_bullets andb]. now rewrite Hc.
Qed.

Lemma strip_last (line : jsstring) :
  forallb (fun c => negb (Part000.is_line_terminator c)) line = true ->
  Part000.strip_bullets false line = line.
Proof.
  induction line as [|c line IH]; intros H; [reflexivity|].
  cbn [forallb] in H. apply andb_true_iff in H. destruct H as [Hc Hl].
  apply negb_true_iff in Hc.
  destruct line as [|d r]; [reflexivity|].
  rewrite <- (IH Hl) at 2.
  cbn [Part000.strip_bullets andb]. now rewrite Hc.
Qed.

Lemma strip_bullet (s : jsstring) :
  Part000.strip_bullets true (lit "- " ++ s) = Part000.strip_bullets false s.
Proof. reflexivity. Qed.

Lemma strip_bullets_bullets (lines : list jsstring) :
  Forall (fun line =>
            forallb (fun c => negb (Part000.is_line_terminator c)) line = true)
    lines ->
  Part000.strip_bullets true (bullets lines) = join [10] lines.
Proof.
  unfold bullets.
  induction lines as [|l [|l' lines] IH]; intros H; [reflexivity| |].
  - cbn [map join]. rewrite strip_bullet. apply strip_last.
    now inversion H.
  - inversion H as [|? ? Hl Hrest]; subst.
    change (join [10] (map (fun line => lit "- " ++ line) (l :: l' :: lines)))
      with (lit "- " ++ l ++ 10 :: join [10]
              (map (fun line => lit "- " ++ line) (l' :: lines))).
    rewrite strip_bullet, strip_plain by exact Hl.
    now rewrite (IH Hrest).
Qed.

Lemma newlines_join (lines : list jsstring) :
  Forall (fun line =>
            forallb (fun c => negb (Part000.is_line_terminator c)) line = true)
    lines ->
  Part000.newlines_to_spaces (join [10] lines) = join [32] lines.
Proof.
  assert (Hline : forall line,
             forallb (fun c => negb (Part000.is_line_terminator c)) line = true ->
             Part000.newlines_to_spaces line = line).
  { unfold Part000.newlines_to_spaces.
    induction line as [|c line IH]; intros H; [reflexivity|].
    cbn [forallb] in H. apply andb_true_iff in H. destruct H as [Hc Hl].
    cbn [map]. rewrite (IH Hl).
    unfold Part000.is_line_terminator in Hc.
    destruct (c =? 10); [discriminate | reflexivity]. }
  induction lines as [|l [|l' lines] IH]; intros H; [reflexivity| |].
  - cbn [join]. apply Hline. now inversion H.
  - inversion H as [|? ? Hl Hrest]; subst.
    change (join [10] (l :: l' :: lines))
      with (l ++ 10 :: join [10] (l' :: lines)).
    change (join [32] (l :: l' :: lines))
      with (l ++ 32 :: join [32] (l' :: lines)).
    unfold Part000.newlines_to_spaces in *. rewrite map_app. cbn [map].
    rewrite (Hline l Hl), (IH Hrest). reflexivity.
Qed.

Lemma last_of_map {A B} (f : A -> B) (l : list A) (d : A) (d' : B) :
  l <> [] -> last (map f l) d' = f (last l d).
Proof.
  induction l as [|x [|y l] IH]; intros H; [easy | reflexivity|].
  now apply IH.
Qed.

Lemma trim_bullets (lines : list jsstring) :
  lines <> [] -> Forall is_line lines -> trim (bullets lines) = bullets lines.
Proof.
  intros Hne Hlines.
  assert (Hlast : exists d t, last lines [] = t ++ [d] /\
                              is_white_space d = false).
  { assert (Hin : is_line (last lines [])).
    { rewrite Forall_forall in Hlines. apply Hlines.
      destruct lines as [|l lines]; [easy|].
      destruct (exists_last (l:=l :: lines)) as (front & x & Hx); [easy|].
      rewrite Hx, last_last. apply in_or_app. right. now left. }
    destruct Hin as (Hn & Ht & _).
    destruct (trim_fixed _ Hn Ht) as [_ (d & t & Hd & Hw)]. now exists d, t. }
  destruct Hlast as (d & t & Hd & Hw).
  destruct (join_ends [10] (map (fun line => lit "- " ++ line) lines) d)
    as [t' Ht'].
  - now destruct lines.
  - exists (lit "- " ++ t).
    rewrite (last_of_map _ lines []) by exact Hne.
    rewrite Hd. now rewrite <- app_assoc.
  - unfold bullets in *.
    destruct lines as [|l lines]; [easy|].
    assert (Hhead : exists s,
               join [10] (map (fun line => lit "- " ++ line) (l :: lines))
               = 45 :: s).
    { destruct lines; cbn [map join]; now eexists. }
    destruct Hhead as [s Hs]. rewrite Hs in *.
    now apply (trim_clean 45 d s t').
Qed.

(** X21.  When the notes are the bullet list that the prompt asks for,
    one line per bullet, the explanation shown is the lines in order with
    a single space between two of them: the bullets and the line feeds
    are gone. *)
Theorem X21_explanation_of_bullets (lines : list jsstring) :
  lines <> [] -> Forall is_line lines ->
  Part000.explanation (VStr (bullets lines)) = Some (VStr (join [32] lines)).
Proof.
  intros Hne Hlines.
  assert (Hplain : Forall (fun line =>
            forallb (fun c => negb (Part000.is_line_terminator c)) line = true)
            lines).
  { apply Forall_impl with (2 := Hlines). now intros l (_ & _ & H). }
  cbn [Part000.explanation].
  now rewrite trim_bullets, strip_bullets_bullets, newlines_join.
Qed.

Lemma X21_explanation_of_bullets_witness :
  Part000.explanation
    (VStr (bullets [lit "Customer pays by card"; lit "Bank settles - next day"]))
  = Some (VStr (lit "Customer pays by card Bank settles - next day")).
Proof.
  apply (X21_explanation_of_bullets
           [lit "Customer pays by card"; lit "Bank settles - next day"]).
  - discriminate.
  - repeat constructor; discriminate.
Defined.

(* ================================================================== *)
(** * The Generate button *)

(** X22.  While the Generate button is enabled, a click sends exactly one
    request, with the narrative as typed: the check for a blank narrative
    inside [generate] does not fire. *)
Theorem X22_enabled_button_sends_one_request
  (net : jsstring -> fetch_init -> outcome response) (st : Page.state) :
  Page.generate_disabled st = false ->
  fst (Page.generate net st)
  = [Fetch Page.API_FLOW (Page.api_request (Page.flow st))].
Proof.
  unfold Page.generate_disabled. intros H.
  apply orb_false_iff in H. destruct H as [_ H].
  unfold Page.generate, Page.attempt. rewrite H.
  match goal with
  | |- context [bind ([?c], ?o) ?k] =>
      destruct (called_then_yields (fun _ : jsstring * jsstring => True) c o k)
        as [Hcalls _]
  end.
  - intros r. destruct (negb (ok r)).
    + apply yields_bind; [reflexivity|]. intros t. apply yields_throw.
    + apply yields_bind; [reflexivity|]. intros data. cbv zeta.
      destruct (negb (startsWith _ GRAMMAR_MARKER));
        [apply yields_throw | split; [reflexivity | exact I]].
  - destruct (bind _ _) as [calls result]. cbn [fst] in *. now subst calls.
Qed.

Lemma X22_enabled_button_sends_one_request_witness :
  fst (Page.generate (fun _ _ => Threw (ThrowValue VNull))
         {| Page.flow := lit " pay "; Page.mermaidCode := []; Page.notes := [];
            Page.loading := false; Page.error := [] |})
  = [Fetch Page.API_FLOW (Page.api_request (lit " pay "))].
Proof.
  apply (X22_enabled_button_sends_one_request
           (fun _ _ => Threw (ThrowValue VNull))
           {| Page.flow := lit " pay "; Page.mermaidCode := [];
              Page.notes := []; Page.loading := false; Page.error := [] |}).
  reflexivity.
Defined.
